(** * tap-google-sheets: schema inference, row normalisation, range and
    identifier resolution

    A shallow embedding of [tap_google_sheets/utils.py],
    [tap_google_sheets/tap.py] and [tap_google_sheets/streams.py], the
    properties of the specification proved (or refuted) over it, and further
    properties of the code.

    Conventions of the embedding.
    - A Python [str] is a list of 8-bit characters, read as the code points
      U+0000..U+00FF.  On this range [str.isspace] and the classes [\s] and
      [\d] of [re] are the finite sets written out in [isspace] and
      [isdigit] below.
    - A function that can raise returns a [result]: [Ok v] or [Raise e].
    - A [dict] keeps insertion order: it is an association list without
      repeated keys; a [set] is a [gset].
    - The fragment of [re] the sources use (character classes, bounded greedy
      repetition, capture groups, [^] and [$]) is interpreted by a small
      backtracking matcher, module [Re]. *)

From Stdlib Require Import Ascii NArith DecimalString DecimalFacts DecimalPos DecimalN.
From stdpp Require Import base option list strings gmap.

(** ** Python values *)

Definition str := list ascii.

Inductive str_lit := lnil | lcons (c : ascii) (s : str_lit).

Fixpoint lit_of_bytes (l : list Byte.byte) : str_lit :=
  match l with
  | [] => lnil
  | b :: l => lcons (ascii_of_byte b) (lit_of_bytes l)
  end.

Fixpoint bytes_of_lit (l : str_lit) : list Byte.byte :=
  match l with
  | lnil => []
  | lcons c l => byte_of_ascii c :: bytes_of_lit l
  end.

Declare Scope str_scope.
Delimit Scope str_scope with str.
#[warnings="-via-type-remapping,-via-type-mismatch"]
String Notation str lit_of_bytes bytes_of_lit
  (via str_lit mapping [[nil] => lnil, [cons] => lcons]) : str_scope.
Open Scope str_scope.

(** The exceptions the three modules raise or let through. *)
Inductive exn : Type :=
  | RuntimeError (msg : str)
  | ConfigValidationError (msg : str)
  | AttributeError (msg : str)
  | KeyError (key : str)
  | ValueError (msg : str)
  | RequestError (msg : str).

Inductive result (A : Type) : Type :=
  | Ok (a : A)
  | Raise (e : exn).
Arguments Ok {A} a.
Arguments Raise {A} e.

Global Instance result_bind : MBind result := λ A B f m,
  match m with
  | Ok a => f a
  | Raise e => Raise e
  end.

(** [for x in l: body] over a state [s]; the first exception ends the loop. *)
Fixpoint for_loop {A S} (body : S → A → result S) (l : list A) (s : S) : result S :=
  match l with
  | [] => Ok s
  | x :: l' => s' ← body s x; for_loop body l' s'
  end.

(** [[elt(x) for x in l if cond(x)]]: [elt] is evaluated, and can raise, only
    where [cond] holds. *)
Fixpoint comprehension {A B} (cond : A → bool) (elt : A → result B) (l : list A)
    : result (list B) :=
  match l with
  | [] => Ok []
  | x :: l' =>
      if cond x
      then y ← elt x; ys ← comprehension cond elt l'; Ok (y :: ys)
      else comprehension cond elt l'
  end.

(** [itertools.zip_longest(l1, l2, l3)]: as long as the longest list, a list
    that has ended contributes [None]. *)
Definition zip_longest {A B C} (l1 : list A) (l2 : list B) (l3 : list C)
    : list (option A * option B * option C) :=
  (λ i, (l1 !! i, l2 !! i, l3 !! i))
    <$> seq 0 (length l1 `max` (length l2 `max` length l3)).

(** Truthiness of a [str] and of an optional [str] ([None] is falsy). *)
Definition truthy (s : str) : bool :=
  match s with
  | [] => false
  | _ :: _ => true
  end.

(** [a or b] where [a] is an optional string: [a] when truthy, else [b]. *)
Definition or_else {B} (a : option str) (k : str → B) (b : B) : B :=
  match a with
  | Some s => if truthy s then k s else b
  | None => b
  end.

Definition code (c : ascii) : nat := nat_of_ascii c.

Definition between (lo hi : ascii) (c : ascii) : bool :=
  (code lo <=? code c) && (code c <=? code hi).

(** [str.isspace] on one character, which is also the class [\s] of [re]:
    TAB..CR, FS..US, SPACE, NEL (U+0085) and NBSP (U+00A0). *)
Definition isspace (c : ascii) : bool :=
  between "009" "013" c || between "028" "032" c
  || (code c =? 133) || (code c =? 160).

(** The class [\d] of [re]. *)
Definition isdigit (c : ascii) : bool := between "0" "9" c.

(** [str.lstrip()], [str.rstrip()], [str.strip()]. *)
Fixpoint lstrip (s : str) : str :=
  match s with
  | [] => []
  | c :: s' => if isspace c then lstrip s' else s
  end.

Fixpoint rstrip (s : str) : str :=
  match s with
  | [] => []
  | c :: s' =>
      match rstrip s' with
      | [] => if isspace c then [] else [c]
      | t => c :: t
      end
  end.

Definition strip (s : str) : str := rstrip (lstrip s).

(** [s.replace(a, b)] for one-character [a] and [b]. *)
Definition replace (a b : ascii) (s : str) : str :=
  map (λ c, if decide (c = a) then b else c) s.

(** [int(s)] on a string of decimal digits. *)
Definition digit_value (c : ascii) : N := N.of_nat (code c - code "0").

Definition int (s : str) : N :=
  fold_left (λ acc c, 10 * acc + digit_value c)%N s 0%N.

(** [str(n)], the decimal numeral an f-string prints for an [int]. *)
Definition str_of_int (n : N) : str :=
  String.list_ascii_of_string (NilEmpty.string_of_uint (N.to_uint n)).

(** The [ValueError] of an unpacking [x1, ..., xk = t] that fails, in
    CPython's words: [expected] is the number of targets, [got] the length
    of [t]. *)
Definition unpack_error (expected got : nat) : exn :=
  ValueError
    (if got <? expected
     then "not enough values to unpack (expected " ++ str_of_int (N.of_nat expected)
          ++ ", got " ++ str_of_int (N.of_nat got) ++ ")"
     else "too many values to unpack (expected " ++ str_of_int (N.of_nat expected) ++ ")").

(** [s.rsplit(sep, 1)[0]]: what precedes the last [sep], or all of [s]. *)
Fixpoint rsplit1_head (sep : ascii) (s : str) : str :=
  match s with
  | [] => []
  | c :: s' =>
      if existsb (λ d, bool_decide (d = sep)) s' then c :: rsplit1_head sep s'
      else if decide (c = sep) then [] else s
  end.

(** ** Ordered dictionaries *)

Module Dict.
Section dict.
Context {V : Type}.

(** [d[k]], as [dict.get]. *)
Fixpoint get (k : str) (d : list (str * V)) : option V :=
  match d with
  | [] => None
  | (k', v) :: d' => if decide (k = k') then Some v else get k d'
  end.

(** [d[k] = v]: an existing key keeps its place, a new one goes last. *)
Fixpoint set (k : str) (v : V) (d : list (str * V)) : list (str * V) :=
  match d with
  | [] => [(k, v)]
  | (k', v') :: d' =>
      if decide (k = k') then (k, v) :: d' else (k', v') :: set k v d'
  end.

Definition keys (d : list (str * V)) : list str := d.*1.

(** [dict(pairs)]: the pairs are stored from left to right. *)
Definition of_pairs (l : list (str * V)) : list (str * V) :=
  fold_left (λ d p, set p.1 p.2 d) l [].
End dict.
End Dict.

(** ** The fragment of [re] *)

Module Re.

(** Members of a bracketed class, and the escapes [\s] and [\d]. *)
Inductive member : Type :=
  | One (c : ascii)
  | Span (lo hi : ascii)
  | Space
  | Digit.

Definition in_member (c : ascii) (m : member) : bool :=
  match m with
  | One c' => bool_decide (c = c')
  | Span lo hi => between lo hi c
  | Space => isspace c
  | Digit => isdigit c
  end.

Definition in_class (cls : list member) (c : ascii) : bool :=
  existsb (in_member c) cls.

(** [Chr c] is a literal, [Rep cls lo hi] is [[cls]{lo,hi}] (greedy);
    [hi = None] is an open upper bound, as in [+]. *)
Inductive atom : Type :=
  | Chr (c : ascii)
  | Rep (cls : list member) (lo : nat) (hi : option nat).

Inductive item : Type :=
  | Atom (a : atom)
  | Group (body : list atom)
  | Bol
  | Eol.

Definition regex := list item.

(** Every way for [[cls]{0,n}] to split [s] into what it consumes and the
    rest, the longest first: the order in which a backtracking matcher
    tries them. *)
Fixpoint rep_upto (cls : list member) (n : nat) (s : str) : list (str * str) :=
  match n, s with
  | S n', c :: s' =>
      if in_class cls c
      then (prod_map (cons c) id <$> rep_upto cls n' s') ++ [([], s)]
      else [([], s)]
  | _, _ => [([], s)]
  end.

Definition match_atom (a : atom) (s : str) : list (str * str) :=
  match a with
  | Chr c =>
      match s with
      | c' :: s' => if decide (c' = c) then [([c'], s')] else []
      | [] => []
      end
  | Rep cls lo hi =>
      filter (λ p, lo ≤ length p.1)
             (rep_upto cls (from_option id (length s) hi) s)
  end.

Fixpoint match_atoms (body : list atom) (s : str) : list (str * str) :=
  match body with
  | [] => [([], s)]
  | a :: body' =>
      p ← match_atom a s;
      prod_map (app p.1) id <$> match_atoms body' p.2
  end.

(** [$] without [re.MULTILINE]: the end of the string, or just before a
    newline that ends it. *)
Definition at_end (s : str) : bool :=
  match s with
  | [] => true
  | [c] => bool_decide (c = "010"%char)
  | _ => false
  end.

(** All matches of [r] that start at offset [pos], where [s] is the text
    from [pos] on: the captured groups and the text left, in the order of
    preference. *)
Fixpoint match_items (r : regex) (pos : nat) (s : str) : list (list str * str) :=
  match r with
  | [] => [([], s)]
  | Atom a :: r' =>
      p ← match_atom a s;
      match_items r' (pos + length p.1) p.2
  | Group body :: r' =>
      p ← match_atoms body s;
      prod_map (cons p.1) id <$> match_items r' (pos + length p.1) p.2
  | Bol :: r' => if decide (pos = 0) then match_items r' pos s else []
  | Eol :: r' => if at_end s then match_items r' pos s else []
  end.

(** [re.match(r, s)]: the groups of the preferred match at offset 0. *)
Definition rmatch (r : regex) (s : str) : option (list str) :=
  fst <$> head (match_items r 0 s).

(** [re.fullmatch(r, s)]: the preferred match that ends where [s] ends. *)
Definition fullmatch (r : regex) (s : str) : option (list str) :=
  fst <$> head (filter (λ m, m.2 = []) (match_items r 0 s)).

(** [re.search(r, s)]: the preferred match at the leftmost offset that has
    one. *)
Fixpoint search_from (r : regex) (pos : nat) (s : str) : option (list str) :=
  match head (match_items r pos s) with
  | Some m => Some m.1
  | None =>
      match s with
      | [] => None
      | _ :: s' => search_from r (S pos) s'
      end
  end.

Definition search (r : regex) (s : str) : option (list str) :=
  search_from r 0 s.

(** [re.sub(r, repl, s)] for a literal [repl]: leftmost matches, none
    overlapping, each replaced by [repl].  [skip] counts the characters of
    the current match still to be passed over. *)
Fixpoint sub_from (r : regex) (repl : str) (pos skip : nat) (s : str) : str :=
  match skip with
  | S k =>
      match s with
      | [] => []
      | _ :: s' => sub_from r repl (S pos) k s'
      end
  | 0 =>
      match head (match_items r pos s) with
      | Some m =>
          match length s - length m.2 with
          | 0 =>
              repl ++ match s with
                      | [] => []
                      | c :: s' => c :: sub_from r repl (S pos) 0 s'
                      end
          | S k =>
              repl ++ match s with
                      | [] => []
                      | _ :: s' => sub_from r repl (S pos) k s'
                      end
          end
      | None =>
          match s with
          | [] => []
          | c :: s' => c :: sub_from r repl (S pos) 0 s'
          end
      end
  end.

Definition sub (r : regex) (repl : str) (s : str) : str :=
  sub_from r repl 0 0 s.

End Re.

(** ** utils.py *)

(** [[a-zA-Z0-9-_]]: after the range [0-9] the hyphen is a literal. *)
Definition id_class : list Re.member :=
  [Re.Span "a" "z"; Re.Span "A" "Z"; Re.Span "0" "9"; Re.One "-"; Re.One "_"].

(** [r"/d/([a-zA-Z0-9-_]+)"] *)
Definition url_pattern : Re.regex :=
  [Re.Atom (Re.Chr "/"); Re.Atom (Re.Chr "d"); Re.Atom (Re.Chr "/");
   Re.Group [Re.Rep id_class 1 None]].

(** [r"[a-zA-Z0-9-_]{40,50}"] *)
Definition id_pattern : Re.regex := [Re.Atom (Re.Rep id_class 40 (Some 50))].

Definition not_found_message (input_string : str) : str :=
  "Spreadsheet ID not found in the input: " ++ input_string ++ ".".

Definition get_parsed_sheet_id (input_string : str) : result str :=
  match Re.fullmatch id_pattern input_string with
  | Some _ => Ok input_string
  | None =>
      match Re.search url_pattern input_string with
      | Some groups => Ok (nth 0 groups [])
      | None => Raise (RuntimeError (not_found_message input_string))
      end
  end.

(** ** The field-name rule

    [re.sub(r"\s+", "_", h.strip())], as written at streams.py lines 50, 58,
    64, 70 and tap.py line 144. *)

Definition whitespace_run : Re.regex := [Re.Atom (Re.Rep [Re.Space] 1 None)].

Definition normalize (h : str) : str := Re.sub whitespace_run "_" (strip h).

(** ** tap.py *)

(** One entry of ["sheets"] (or the top-level configuration read as one):
    [None] is a key that is not there. *)
Module Cfg.
Record t : Type := Make {
  sheet_id : option str;
  output_name : option str;
  child_sheet_name : option str;
  key_properties : option (list str);
  range : option str;
}.
End Cfg.

(** The tap's configuration: the optional ["sheets"] list and the keys of the
    top level itself. *)
Record TapConfig : Type := {
  sheets : option (list Cfg.t);
  top_level : Cfg.t;
}.

(** The body of a response, [response.json()]: the keys the tap reads. *)
Record Json : Type := {
  json_title : option str;
  json_values : option (list (list str));
  json_range : option str;
}.

(** [th.StringType], the only type the tap declares. *)
Inductive json_type : Type := StringType.

(** The stream object [discover_streams] builds. *)
Record GoogleSheetsStream : Type := {
  name : str;
  schema : list (str * json_type);
  child_sheet_name : str;
  primary_keys : list str;
  stream_config : Cfg.t;
}.

(** [[A-Za-z]] *)
Definition letters : list Re.member := [Re.Span "A" "Z"; Re.Span "a" "z"].

Definition COL : Re.item := Re.Group [Re.Rep letters 1 (Some 3)].
Definition ROW : Re.item := Re.Group [Re.Rep [Re.Digit] 1 (Some 7)].
Definition NIL : Re.item := Re.Group [].
Definition COLON : Re.item := Re.Atom (Re.Chr ":").

Definition a1_allowed_regexp : list Re.regex := [
  [Re.Bol; COL; ROW; NIL; NIL; Re.Eol];           (* e.g. G8 *)
  [Re.Bol; COL; NIL; COLON; COL; NIL; Re.Eol];    (* e.g. C:G *)
  [Re.Bol; NIL; ROW; COLON; NIL; ROW; Re.Eol];    (* e.g. 1:5 *)
  [Re.Bol; COL; ROW; COLON; NIL; ROW; Re.Eol];    (* e.g. C1:5 *)
  [Re.Bol; COL; ROW; COLON; COL; NIL; Re.Eol];    (* e.g. A1:B *)
  [Re.Bol; COL; ROW; COLON; COL; ROW; Re.Eol];    (* e.g. C4:G14 *)
  [Re.Bol; COL; NIL; COLON; COL; ROW; Re.Eol];    (* e.g. A:B5 *)
  [Re.Bol; NIL; ROW; COLON; COL; ROW; Re.Eol]     (* e.g. 2:B5 *)
].

(** [next(match for match in range_matcher if match)]: the groups of the
    first pattern that matches, [None] for [StopIteration]. *)
Definition range_match (sheet_range : str) : option (list str) :=
  head (omap (λ p, Re.rmatch p sheet_range) a1_allowed_regexp).

Definition line_number (start_line end_line : str) : str :=
  if truthy start_line && truthy end_line
  then str_of_int (N.min (int start_line) (int end_line))
  else if truthy start_line then start_line
  else if truthy end_line then end_line
  else "1".

Definition get_first_line_range (stream_config : Cfg.t) : result str :=
  match Cfg.range stream_config with
  | None => Ok "1:1"
  | Some sheet_range =>
      match range_match sheet_range with
      | None => Raise (ConfigValidationError "Invalid A1 notation for range")
      | Some [start_column; start_line; end_column; end_line] =>
          let line := line_number start_line end_line in
          let end_column :=
            if negb (truthy end_column) && negb (truthy end_line)
            then start_column else end_column in
          Ok (start_column ++ line ++ ":" ++ end_column ++ line)
      | Some groups => Raise (unpack_error 4 (length groups))
      end
  end.

(** [headings, *data = body["values"]] *)
Definition unpack_values (body : Json) : result (list str * list (list str)) :=
  match json_values body with
  | None => Raise (KeyError "values")
  | Some [] =>
      Raise (ValueError "not enough values to unpack (expected at least 1, got 0)")
  | Some (headings :: data) => Ok (headings, data)
  end.

(** [schema.append(th.Property(name, th.StringType))]: [th.PropertiesList]
    keeps its properties in a [dict] keyed by name ([wrapped], which line 88
    reads with [.values()]), and [to_dict] lists them in that order. *)
Definition append (name : str) (ty : json_type) (schema : list (str * json_type))
    : list (str * json_type) :=
  Dict.set name ty schema.

Definition get_schema (google_sheet_data : Json) : result (list (str * json_type)) :=
  p ← unpack_values google_sheet_data;
  Ok (fold_left (λ schema column,
                   if truthy column then append (normalize column) StringType schema
                   else schema)
                p.1 []).

Definition get_first_visible_child_sheet_name (google_sheet_data : Json) : result str :=
  match json_range google_sheet_data with
  | None => Raise (KeyError "range")
  | Some r => Ok (rsplit1_head "!" r)
  end.

Definition sheet_id_of (stream_config : Cfg.t) : result str :=
  match Cfg.sheet_id stream_config with
  | None => Raise (KeyError "sheet_id")
  | Some raw => get_parsed_sheet_id raw
  end.

(** The two endpoints the tap asks, as the [path] arguments built at lines
    128 and 191 to 196. *)
Definition drive_path (id : str) : str :=
  "https://www.googleapis.com/drive/v2/files/" ++ id.

Definition values_path (id child first_line : str) : str :=
  "https://sheets.googleapis.com/v4/spreadsheets/" ++ id
  ++ "/values/" ++ child ++ "!" ++ first_line.

(** [self.config.get("sheets") or [self.config]] *)
Definition sheet_entries (config : TapConfig) : list Cfg.t :=
  match sheets config with
  | Some (c :: l) => c :: l
  | _ => [top_level config]
  end.

Section tap.
(** The HTTP layer of the framework ([prepare_request] and [_request]): the
    body served for a path, or the exception the request ends in. *)
Variable request : str → result Json.

Definition get_sheet_name (stream_config : Cfg.t) : result (option str) :=
  id ← sheet_id_of stream_config;
  response ← request (drive_path id);
  Ok (json_title response).

Definition get_sheet_data (stream_config : Cfg.t) : result Json :=
  id ← sheet_id_of stream_config;
  first_line ← get_first_line_range stream_config;
  request (values_path id (default [] (Cfg.child_sheet_name stream_config)) first_line).

(** [stream_config.get("output_name") or self.get_sheet_name(stream_config)] *)
Definition name_or_title (stream_config : Cfg.t) : result (option str) :=
  or_else (Cfg.output_name stream_config) (λ n, Ok (Some n))
          (get_sheet_name stream_config).

(** The body of the loop of [discover_streams], lines 100 to 118. *)
Definition discover_stream (streams : list GoogleSheetsStream) (stream_config : Cfg.t)
    : result (list GoogleSheetsStream) :=
  stream_name ← name_or_title stream_config;
  stream_name ← match stream_name with
                 | Some n => Ok (replace " " "_" n)
                 | None => Raise (AttributeError "'NoneType' object has no attribute 'replace'")
                 end;
  let key_properties := default [] (Cfg.key_properties stream_config) in
  google_sheet_data ← get_sheet_data stream_config;
  stream_schema ← get_schema google_sheet_data;
  child_sheet_name ← or_else (Cfg.child_sheet_name stream_config) Ok
                             (get_first_visible_child_sheet_name google_sheet_data);
  if truthy stream_name
  then Ok (streams ++ [{| name := stream_name;
                          schema := stream_schema;
                          child_sheet_name := child_sheet_name;
                          primary_keys := key_properties;
                          stream_config := stream_config |}])
  else Ok streams.

Definition discover_streams (config : TapConfig) : result (list GoogleSheetsStream) :=
  for_loop discover_stream (sheet_entries config) [].
End tap.

(** ** streams.py *)

(** The [path] property of a stream, streams.py lines 24 to 31. *)
Definition path (self : GoogleSheetsStream) : result str :=
  match Cfg.sheet_id (stream_config self) with
  | None => Raise (KeyError "sheet_id")
  | Some sheet_id =>
      let path := "/" ++ sheet_id ++ "/values/" ++ child_sheet_name self in
      Ok (or_else (Cfg.range (stream_config self))
                  (λ sheet_range, path ++ "!" ++ sheet_range) path)
  end.

(** One item of [self.metadata]: the breadcrumb and its [selected] flag. *)
Definition Metadata := list (list str * option bool).

(** [_, column_name = key] raises the [ValueError] of the unpacking when the
    breadcrumb does not have two elements.  [list(set(...))] lists the set
    in an order Python does not fix: [elements] lists it in one order, and
    the statements below use the answer through membership and emptiness
    only, as [parse_response] does. *)
Definition get_selected_columns (metadata : Metadata) : result (list str) :=
  selected_columns ←
    for_loop (λ selected_columns item,
                if bool_decide ("properties" ∈ item.1)
                then match item.1 with
                     | [_; column_name] =>
                         if bool_decide (item.2 = Some true)
                         then Ok (selected_columns ++ [column_name])
                         else Ok selected_columns
                     | key => Raise (unpack_error 2 (length key))
                     end
                else Ok selected_columns)
             metadata [];
  Ok (elements (list_to_set (normalize <$> selected_columns) : gset str)).

Definition selected_columns_set (selected_columns : list str) (normalized_headings : list str)
    : gset str :=
  match selected_columns with
  | _ :: _ => list_to_set selected_columns
  | [] => list_to_set normalized_headings
  end.

Definition mask (headings : list str) (selected : gset str) : list bool :=
  (λ x, truthy x && bool_decide (normalize x ∈ selected)) <$> headings.

(** The list built at line 70 for one row. *)
Definition row_pairs (mask : list bool) (headings values : list str)
    : result (list (str * str)) :=
  comprehension
    (λ t, bool_decide (t.1.1 = Some true))
    (λ t, match t.1.2 with
          | Some h => Ok (normalize h, or_else t.2 id "")
          | None => Raise (AttributeError "'NoneType' object has no attribute 'strip'")
          end)
    (zip_longest mask headings values).

(** Modelled from the spec: [records_jsonpath], which [extract_jsonpath]
    applies to [data_rows] at line 82, comes from the base stream class in
    [client.py], which is not among the sources; by section 4.5 of the
    specification the records are the elements of [data_rows], one per input
    row, in order. *)
Definition extract_records {A} (data_rows : list A) : list A := data_rows.

(** [parse_response]: the records it yields. *)
Definition parse_response (metadata : Metadata) (response : Json)
    : result (list (list (str * str))) :=
  p ← unpack_values response;
  let headings := p.1 in
  let data := p.2 in
  let normalized_headings := normalize <$> headings in
  selected_columns ← get_selected_columns metadata;
  let selected := selected_columns_set selected_columns normalized_headings in
  let mask := mask headings selected in
  data_rows ← for_loop (λ data_rows values,
                          pairs ← row_pairs mask headings values;
                          Ok (data_rows ++ [Dict.of_pairs pairs]))
                       data [];
  Ok (extract_records data_rows).

(** ** Vocabulary of the statements *)

(** Every character of [s] is in the class [cls]. *)
Definition all_in (cls : list Re.member) (s : str) : Prop :=
  Forall (λ c, Re.in_class cls c) s.

(** The length of the longest prefix of [s] made of characters of [cls]. *)
Fixpoint run (cls : list Re.member) (s : str) : nat :=
  match s with
  | c :: s' => if Re.in_class cls c then S (run cls s') else 0
  | [] => 0
  end.

(** [rest] does not go on with a character of [cls]. *)
Definition stops (cls : list Re.member) (rest : str) : Prop :=
  ∀ c rest', rest = c :: rest' → ¬ Re.in_class cls c.

(** [s] has the canonical shape of an identifier: 40 to 50 characters of
    [[A-Za-z0-9-_]]. *)
Definition canonical (s : str) : Prop :=
  40 ≤ length s ≤ 50 ∧ all_in id_class s.

(** [s] holds, after [pre], the text [/d/] and then the identifier
    characters [g], at least one. *)
Definition url_occurrence (s pre g post : str) : Prop :=
  s = pre ++ "/d/" ++ g ++ post ∧ g ≠ [] ∧ all_in id_class g.

Definition starts_url (t : str) : Prop :=
  ∃ g post, t = "/d/" ++ g ++ post ∧ g ≠ [] ∧ all_in id_class g.

(** [g] is the group captured at the leftmost occurrence of [/d/<id>] in
    [s]: the longest run of identifier characters there. *)
Definition first_capture (s g : str) : Prop :=
  ∃ pre post,
    url_occurrence s pre g post
    ∧ stops id_class post
    ∧ (∀ pre' g' post', url_occurrence s pre' g' post' → length pre ≤ length pre').

(** What [re.sub(r"\s+", "_", s)] computes, written directly: [in_run] tells
    whether the previous character was whitespace. *)
Fixpoint squeeze (in_run : bool) (s : str) : str :=
  match s with
  | [] => []
  | c :: s' =>
      if isspace c
      then if in_run then squeeze true s' else "_" ++ squeeze true s'
      else c :: squeeze false s'
  end.

Definition no_space (s : str) : Prop := Forall (λ c, ¬ isspace c) s.

(** [r] matches one of the eight shapes, and [gs] are the groups of the first
    pattern of [a1_allowed_regexp] that matches. *)
Definition first_shape (r : str) (gs : list str) : Prop :=
  ∃ i p, a1_allowed_regexp !! i = Some p
    ∧ Re.rmatch p r = Some gs
    ∧ ∀ j q, j < i → a1_allowed_regexp !! j = Some q → Re.rmatch q r = None.

(** [r] matches none of the eight shapes. *)
Definition no_shape (r : str) : Prop :=
  ∀ p, p ∈ a1_allowed_regexp → Re.rmatch p r = None.

(** A sheet entry that sets nothing but its range. *)
Definition range_cfg (r : option str) : Cfg.t :=
  Cfg.Make None None None None r.

(** A column reference: one to three letters.  A row reference: one to seven
    digits. *)
Definition col (s : str) : Prop := 1 ≤ length s ≤ 3 ∧ all_in letters s.
Definition row (s : str) : Prop := 1 ≤ length s ≤ 7 ∧ all_in [Re.Digit] s.

(** The eight shapes of section 4.2, with their four groups. *)
Inductive a1_shape : str → list str → Prop :=
  | a1_cell c r : col c → row r → a1_shape (c ++ r) [c; r; []; []]
  | a1_columns c c' : col c → col c' → a1_shape (c ++ ":" ++ c') [c; []; c'; []]
  | a1_rows r r' : row r → row r' → a1_shape (r ++ ":" ++ r') [[]; r; []; r']
  | a1_cell_row c r r' :
      col c → row r → row r' → a1_shape (c ++ r ++ ":" ++ r') [c; r; []; r']
  | a1_cell_column c r c' :
      col c → row r → col c' → a1_shape (c ++ r ++ ":" ++ c') [c; r; c'; []]
  | a1_box c r c' r' :
      col c → row r → col c' → row r' →
      a1_shape (c ++ r ++ ":" ++ c' ++ r') [c; r; c'; r']
  | a1_column_cell c c' r' :
      col c → col c' → row r' → a1_shape (c ++ ":" ++ c' ++ r') [c; []; c'; r']
  | a1_row_cell r c' r' :
      row r → col c' → row r' → a1_shape (r ++ ":" ++ c' ++ r') [[]; r; c'; r'].

(** One group of a pattern of [a1_allowed_regexp], and the pattern made of
    four of them, with or without the colon. *)
Inductive part : Type := PCol | PRow | PNil.

Definition part_item (p : part) : Re.item :=
  match p with PCol => COL | PRow => ROW | PNil => NIL end.

Definition accepts (p : part) (s : str) : Prop :=
  match p with PCol => col s | PRow => row s | PNil => s = [] end.

Definition a1_pattern (colon : bool) (a b c d : part) : Re.regex :=
  [Re.Bol; part_item a; part_item b]
  ++ (if colon then [COLON] else [])
  ++ [part_item c; part_item d; Re.Eol].

Definition a1_table : list (bool * part * part * part * part) := [
  (false, PCol, PRow, PNil, PNil);
  (true, PCol, PNil, PCol, PNil);
  (true, PNil, PRow, PNil, PRow);
  (true, PCol, PRow, PNil, PRow);
  (true, PCol, PRow, PCol, PNil);
  (true, PCol, PRow, PCol, PRow);
  (true, PCol, PNil, PCol, PRow);
  (true, PNil, PRow, PCol, PRow)
].

(** [a1_allowed_regexp] is this table, row by row. *)
Definition table_pattern (t : bool * part * part * part * part) : Re.regex :=
  let '(colon, a, b, c, d) := t in a1_pattern colon a b c d.

(** [s] splits as the row [t] of the table asks, into the groups [gs] and
    what [$] leaves. *)
Definition splits (t : bool * part * part * part * part) (s : str) (gs : list str)
    (rest : str) : Prop :=
  let '(colon, a, b, c, d) := t in
  ∃ sc sr ec er,
    gs = [sc; sr; ec; er]
    ∧ s = sc ++ sr ++ (if colon then ":" else []) ++ ec ++ er ++ rest
    ∧ accepts a sc ∧ accepts b sr ∧ accepts c ec ∧ accepts d er
    ∧ Re.at_end rest.

(** The longest prefix of [s] in the class [cls], and what follows it. *)
Definition split_run (cls : list Re.member) (s : str) : str * str :=
  (take (run cls s) s, drop (run cls s) s).

(** The one way to read [s] as columns, rows and a colon, from left to
    right: whether there is a colon, the four groups, and what is left. *)
Definition a1_parse (s : str) : bool * list str * str :=
  let '(sc, s1) := split_run letters s in
  let '(sr, s2) := split_run [Re.Digit] s1 in
  let '(colon, s3) :=
    match s2 with
    | c :: s3 => if decide (c = ":"%char) then (true, s3) else (false, s2)
    | [] => (false, s2)
    end in
  let '(ec, s4) := split_run letters s3 in
  let '(er, rest) := split_run [Re.Digit] s4 in
  (colon, [sc; sr; ec; er], rest).

Global Instance part_eq_dec : EqDecision part.
Proof. solve_decision. Defined.

(** [r] is [r'], or [r'] followed by one newline. *)
Definition chomped (r r' : str) : Prop := r = r' ∨ r = r' ++ ["010"%char].

(** A values response whose body holds [values] and nothing else. *)
Definition sheet_values (values : list (list str)) : Json :=
  {| json_title := None; json_values := Some values; json_range := None |}.

(** The names of [l], each once, in the order of their first occurrence. *)
Fixpoint first_occurrences (l : list str) : list str :=
  match l with
  | [] => []
  | x :: l' => x :: filter (λ y, y ≠ x) (first_occurrences l')
  end.

(** One turn of the loop of [get_schema]. *)
Definition schema_step (schema : list (str * json_type)) (column : str)
    : list (str * json_type) :=
  if truthy column then append (normalize column) StringType schema else schema.

(** The effective selection: the given selection if it is not empty,
    otherwise every normalised header name. *)
Definition in_selection (selected headings : list str) (k : str) : Prop :=
  if decide (selected = []) then k ∈ normalize <$> headings else k ∈ selected.

(** A header cell whose column is kept: not empty, and its normalised name
    is in the effective selection. *)
Definition included_column (selected headings : list str) (h : str) : Prop :=
  h ≠ [] ∧ in_selection selected headings (normalize h).

(** The pairs of one row, column by column: what [row_pairs] evaluates to. *)
Fixpoint columns (selected : gset str) (headings values : list str) : list (str * str) :=
  match headings with
  | [] => []
  | h :: hs =>
      (if truthy h && bool_decide (normalize h ∈ selected)
       then [(normalize h, default [] (head values))] else [])
      ++ columns selected hs (tail values)
  end.

(** Catalog metadata over the columns [all] that marks those of [l] as
    selected. *)
Definition select_only (all l : list str) : Metadata :=
  ([], None)
  :: ((λ c, (["properties"; c], Some (bool_decide (c ∈ l)))) <$> all).

(** An optional key that is there with a non-empty string. *)
Definition given (o : option str) : Prop := ∃ s, o = Some s ∧ s ≠ [].

(** A sheet entry all of whose lookups succeed: the identifier resolves, the
    range matches, the header fetch answers with a header row, and the
    stream name and the child sheet name can be derived. *)
Definition resolved (request : str → result Json) (c : Cfg.t) : Prop :=
  ∃ id first_line data headings rows,
    sheet_id_of c = Ok id
    ∧ get_first_line_range c = Ok first_line
    ∧ request (values_path id (default [] (Cfg.child_sheet_name c)) first_line) = Ok data
    ∧ json_values data = Some (headings :: rows)
    ∧ (given (Cfg.output_name c)
       ∨ ∃ meta title, request (drive_path id) = Ok meta ∧ json_title meta = Some title)
    ∧ (given (Cfg.child_sheet_name c) ∨ is_Some (json_range data)).

(** [s] with every space written as an underscore. *)
Definition underscored (s : str) : str :=
  (λ ch, if decide (ch = " "%char) then "_"%char else ch) <$> s.

(** The name the stream of an entry is to have, read off the configuration
    and the remote: the output name of the entry when it gives one,
    otherwise the title the remote serves for the spreadsheet; in both cases
    with every space written as an underscore. *)
Inductive named (request : str → result Json) (c : Cfg.t) : str → Prop :=
  | named_output s :
      Cfg.output_name c = Some s → s ≠ [] → named request c (underscored s)
  | named_title id meta title :
      ¬ given (Cfg.output_name c) →
      sheet_id_of c = Ok id →
      request (drive_path id) = Ok meta →
      json_title meta = Some title →
      named request c (underscored title).

(** A stream with the entry it was built from and its name. *)
Definition entry_and_name (st : GoogleSheetsStream) : Cfg.t * str :=
  (stream_config st, name st).

(** The pairs of an entry and its name whose name is not empty. *)
Definition with_name (l : list (Cfg.t * str)) : list (Cfg.t * str) :=
  filter (λ p, p.2 ≠ []) l.

(** The stream name lines 100 and 101 derive; empty when there is none. *)
Definition stream_name_of (request : str → result Json) (c : Cfg.t) : str :=
  match name_or_title request c with
  | Ok (Some n) => replace " " "_" n
  | _ => []
  end.

(** The exception of line 101 when the name is [None]. *)
Definition no_replace : exn :=
  AttributeError "'NoneType' object has no attribute 'replace'".

(** A small remote for the examples: three spreadsheets, one titled, one with
    an empty title, one whose metadata has no title. *)
Definition demo_entry (id : str) : Cfg.t :=
  Cfg.Make (Some ("https://docs.google.com/spreadsheets/d/" ++ id ++ "/edit"))
           None None None None.

Definition demo_header (headings : list str) (range : str) : Json :=
  {| json_title := None; json_values := Some [headings]; json_range := Some range |}.

Definition demo_title (title : option str) : Json :=
  {| json_title := title; json_values := None; json_range := None |}.

Definition demo_request (path : str) : result Json :=
  if decide (path = drive_path "idA") then Ok (demo_title (Some "Team list"))
  else if decide (path = drive_path "idB") then Ok (demo_title (Some ""))
  else if decide (path = drive_path "idC") then Ok (demo_title None)
  else if decide (path = values_path "idA" [] "1:1")
  then Ok (demo_header ["Name"; "Age"] "Sheet1!A1:Z1")
  else if decide (path = values_path "idB" [] "1:1")
  then Ok (demo_header ["Id"] "Data!A1:Z1")
  else Raise (RequestError "404").

(** A second kind of entry: the sheet is given bare behind [/d/], and the
    entry names its stream. *)
Definition demo_named (id output_name : str) : Cfg.t :=
  Cfg.Make (Some ("/d/" ++ id)) (Some output_name) None None None.

Definition demo_config (ids : list str) : TapConfig :=
  {| sheets := Some (demo_entry <$> ids);
     top_level := Cfg.Make None None None None None |}.

(** A catalog item [get_selected_columns] can unpack: a breadcrumb that
    holds ["properties"] has exactly two elements. *)
Definition well_keyed (item : list str * option bool) : Prop :=
  "properties" ∈ item.1 → length item.1 = 2.

(** The column an item marks as selected, if it marks one. *)
Definition marked_column (item : list str * option bool) : option str :=
  match item.1 with
  | [_; column_name] =>
      if bool_decide ("properties" ∈ item.1) && bool_decide (item.2 = Some true)
      then Some column_name else None
  | _ => None
  end.

(** The loop of [get_selected_columns], lines 41 to 47. *)
Definition selected_step (selected_columns : list str) (item : list str * option bool)
    : result (list str) :=
  if bool_decide ("properties" ∈ item.1)
  then match item.1 with
       | [_; column_name] =>
           if bool_decide (item.2 = Some true)
           then Ok (selected_columns ++ [column_name])
           else Ok selected_columns
       | key => Raise (unpack_error 2 (length key))
       end
  else Ok selected_columns.

Global Instance well_keyed_dec item : Decision (well_keyed item).
Proof. unfold well_keyed. apply _. Defined.

(** The decimal numeral a string of digits spells. *)
Definition numeral_digit (c : ascii) (d : Decimal.uint) : Decimal.uint :=
  match digit_value c with
  | 0 => Decimal.D0 d | 1 => Decimal.D1 d | 2 => Decimal.D2 d | 3 => Decimal.D3 d
  | 4 => Decimal.D4 d | 5 => Decimal.D5 d | 6 => Decimal.D6 d | 7 => Decimal.D7 d
  | 8 => Decimal.D8 d | _ => Decimal.D9 d
  end%N.

Definition numeral (s : str) : Decimal.uint := foldr numeral_digit Decimal.Nil s.

(** What one successful turn of the loop of [discover_streams] has read and
    built for the entry [c]: [out] is the stream it appends, if any. *)
Definition turn (request : str → result Json) (c : Cfg.t)
    (out : list GoogleSheetsStream) : Prop :=
  ∃ raw id first_line data sch child n,
    Cfg.sheet_id c = Some raw
    ∧ get_parsed_sheet_id raw = Ok id
    ∧ get_first_line_range c = Ok first_line
    ∧ request (values_path id (default [] (Cfg.child_sheet_name c)) first_line) = Ok data
    ∧ get_schema data = Ok sch
    ∧ name_or_title request c = Ok (Some n)
    ∧ or_else (Cfg.child_sheet_name c) Ok (get_first_visible_child_sheet_name data)
      = Ok child
    ∧ out = if truthy (replace " " "_" n)
            then [{| name := replace " " "_" n;
                     schema := sch;
                     child_sheet_name := child;
                     primary_keys := default [] (Cfg.key_properties c);
                     stream_config := c |}]
            else [].

(** Evaluates the binds of the [result] monad that have a value at hand. *)
Ltac step := cbn [mbind result_bind fst snd].

(** * Properties

    ** The matcher *)

Lemma run_le cls s : run cls s ≤ length s.
Proof. induction s as [|c s IH]; simpl; [lia|]. destruct (Re.in_class cls c); simpl; lia. Qed.

Lemma all_in_take_run cls s : all_in cls (take (run cls s) s).
Proof.
  induction s as [|c s IH]; simpl; [constructor|].
  destruct (Re.in_class cls c) eqn:E; simpl; [|constructor].
  constructor; [by rewrite E | done].
Qed.

Lemma all_in_run cls a r : all_in cls a → length a ≤ run cls (a ++ r).
Proof.
  induction 1 as [|c a Hc _ IH]; simpl; [lia|].
  destruct (Re.in_class cls c); [lia | done].
Qed.

Lemma elem_of_rep_upto cls n s a r :
  (a, r) ∈ Re.rep_upto cls n s ↔ s = a ++ r ∧ length a ≤ n ∧ all_in cls a.
Proof.
  revert s a. induction n as [|n IH]; intros s a.
  - assert (Re.rep_upto cls 0 s = [([], s)]) as -> by (by destruct s).
    rewrite list_elem_of_singleton. split.
    + intros [= -> ->]. split_and!; [done | simpl; lia | constructor].
    + intros (-> & Hl & _). destruct a; [done | simpl in Hl; lia].
  - destruct s as [|c s]; simpl.
    + rewrite list_elem_of_singleton; split.
      * intros [= -> ->]. split_and!; [done | simpl; lia | constructor].
      * intros (Hs & _ & _). symmetry in Hs. apply app_eq_nil in Hs as [-> ->]. done.
    + destruct (Re.in_class cls c) eqn:E.
      * rewrite elem_of_app, list_elem_of_fmap, list_elem_of_singleton. split.
        -- intros [([a' r'] & [= -> ->] & Hin) | [= -> ->]].
           ++ apply IH in Hin as (-> & Hl & Ha). split_and!; [done | simpl; lia|].
              constructor; [by rewrite E | done].
           ++ split_and!; [done | simpl; lia | constructor].
        -- intros (Hs & Hl & Ha). destruct a as [|c' a]; simpl in *.
           ++ right. by subst.
           ++ left. injection Hs as -> ->. exists (a, r). split; [done|].
              apply IH. inversion Ha; subst. split_and!; [done | lia | done].
      * rewrite list_elem_of_singleton. split.
        -- intros [= -> ->]. split_and!; [done | simpl; lia | constructor].
        -- intros (Hs & _ & Ha). destruct a as [|c' a]; simpl in *; [by subst|].
           injection Hs as -> ->. inversion Ha as [|?? Hc]; subst. by rewrite E in Hc.
Qed.

Lemma head_rep_upto cls n s :
  head (Re.rep_upto cls n s) = Some (take (n `min` run cls s) s, drop (n `min` run cls s) s).
Proof.
  revert s. induction n as [|n IH]; intros s.
  - destruct s; done.
  - destruct s as [|c s]; simpl; [done|].
    destruct (Re.in_class cls c); simpl; [|done].
    specialize (IH s). destruct (Re.rep_upto cls n s) as [|[a r] l]; [done|].
    simpl in *. by injection IH as -> ->.
Qed.

Lemma elem_of_match_rep cls lo hi s a r :
  (a, r) ∈ Re.match_atom (Re.Rep cls lo hi) s ↔
  s = a ++ r ∧ lo ≤ length a ∧ length a ≤ from_option id (length s) hi ∧ all_in cls a.
Proof.
  simpl. rewrite list_elem_of_filter, elem_of_rep_upto. simpl. tauto.
Qed.

Lemma head_match_rep cls lo hi s :
  let k := from_option id (length s) hi `min` run cls s in
  head (Re.match_atom (Re.Rep cls lo hi) s)
  = if decide (lo ≤ k) then Some (take k s, drop k s) else None.
Proof.
  intros k. simpl.
  pose proof (head_rep_upto cls (from_option id (length s) hi) s) as Hh.
  fold k in Hh. case_decide as Hlo.
  - destruct (Re.rep_upto _ _ _) as [|x l]; [done|]. injection Hh as ->.
    rewrite filter_cons_True; [done|]. simpl. rewrite length_take.
    pose proof (run_le cls s). lia.
  - apply head_None. destruct (filter _ _) as [|[a r] l] eqn:E; [done|].
    assert ((a, r) ∈ (a, r) :: l) as Hin by left. rewrite <- E in Hin.
    apply list_elem_of_filter in Hin as [Hl Hin]. simpl in Hl.
    apply elem_of_rep_upto in Hin as (-> & Hn & Ha).
    pose proof (all_in_run cls a r Ha). exfalso. apply Hlo. unfold k. lia.
Qed.

Lemma match_items_groups r pos s m :
  m ∈ Re.match_items r pos s →
  length m.1 = length (omap (λ i, match i with Re.Group b => Some b | _ => None end) r).
Proof.
  revert pos s m. induction r as [|i r IH]; intros pos s m; simpl.
  - rewrite list_elem_of_singleton. by intros ->.
  - destruct i as [a|body| |]; simpl.
    + rewrite list_elem_of_bind. intros (p & Hm & _). eauto.
    + rewrite list_elem_of_bind. intros (p & Hm & _).
      apply list_elem_of_fmap in Hm as (m' & -> & Hm'). simpl. f_equal. eauto.
    + case_decide; [eauto | by rewrite elem_of_nil].
    + destruct (Re.at_end s); [eauto | by rewrite elem_of_nil].
Qed.

(** ** The two patterns of [get_parsed_sheet_id] *)

Lemma fullmatch_id_pattern s :
  is_Some (Re.fullmatch id_pattern s) ↔ canonical s.
Proof.
  unfold Re.fullmatch, id_pattern, canonical.
  rewrite fmap_is_Some, head_is_Some. split.
  - intros Hne. destruct (filter _ _) as [|[gs rest] l] eqn:E; [done|].
    assert ((gs, rest) ∈ (gs, rest) :: l) as Hin by left. rewrite <- E in Hin.
    apply list_elem_of_filter in Hin as [Hr Hin]. simpl in Hr. subst rest.
    cbn [Re.match_items] in Hin. apply list_elem_of_bind in Hin as ([a r] & Hin & Ha).
    apply list_elem_of_singleton in Hin. injection Hin as -> <-.
    apply elem_of_match_rep in Ha as (-> & Hlo & Hhi & Hall). simpl in Hhi.
    rewrite app_nil_r. done.
  - intros ([Hlo Hhi] & Hall) E.
    eapply (filter_nil_not_elem_of _ _ ([], [])); [exact E | done |].
    cbn [Re.match_items]. apply list_elem_of_bind. exists (s, []). split; [left|].
    apply elem_of_match_rep. rewrite app_nil_r. done.
Qed.

Lemma head_match_url pos t :
  head (Re.match_items url_pattern pos t)
  = match t with
    | c1 :: c2 :: c3 :: u =>
        if decide (c1 = "/"%char ∧ c2 = "d"%char ∧ c3 = "/"%char ∧ 1 ≤ run id_class u)
        then Some ([take (run id_class u) u], drop (run id_class u) u)
        else None
    | _ => None
    end.
Proof.
  unfold url_pattern. cbn [Re.match_items Re.match_atom].
  destruct t as [|c1 t]; [done|].
  destruct (decide (c1 = "/"%char)) as [->|H1]; cycle 1.
  { destruct t as [|c2 [|c3 u]]; [done..|]. rewrite decide_False; [done | tauto]. }
  cbn [mbind list_bind snd fst]. rewrite app_nil_r.
  destruct t as [|c2 t]; [done|].
  destruct (decide (c2 = "d"%char)) as [->|H2]; cycle 1.
  { destruct t as [|c3 u]; [done|]. rewrite decide_False; [done | tauto]. }
  cbn [mbind list_bind snd fst]. rewrite app_nil_r.
  destruct t as [|c3 u]; [done|].
  destruct (decide (c3 = "/"%char)) as [->|H3]; cycle 1.
  { rewrite decide_False; [done | tauto]. }
  cbn [mbind list_bind snd fst]. rewrite app_nil_r.
  cbn [Re.match_atoms].
  pose proof (head_match_rep id_class 1 None u) as Hh.
  cbv zeta in Hh. cbn [from_option] in Hh.
  rewrite (Nat.min_r _ _ (run_le _ _)) in Hh.
  destruct (Re.match_atom (Re.Rep id_class 1 None) u) as [|[a r] l] eqn:E.
  - rewrite decide_False; [done|]. intros (_ & _ & _ & ?).
    by rewrite decide_True in Hh.
  - simpl in Hh. case_decide as Hk; [|done]. injection Hh as -> ->.
    rewrite decide_True by done. cbn. by rewrite app_nil_r.
Qed.

Lemma search_from_spec r pos s g :
  Re.search_from r pos s = Some g ↔
  ∃ k rest, k ≤ length s
    ∧ head (Re.match_items r (pos + k) (drop k s)) = Some (g, rest)
    ∧ ∀ j, j < k → head (Re.match_items r (pos + j) (drop j s)) = None.
Proof.
  revert pos. induction s as [|c s IH]; intros pos; simpl.
  - destruct (head (Re.match_items r pos [])) as [[g' rest']|] eqn:E; simpl.
    + split.
      * intros [= ->]. exists 0, rest'. rewrite Nat.add_0_r. split_and!; [lia | done | lia].
      * intros (k & rest & Hk & Hh & _). assert (k = 0) as -> by lia.
        rewrite Nat.add_0_r in Hh. simpl in Hh. congruence.
    + split; [done|]. intros (k & rest & Hk & Hh & _). assert (k = 0) as -> by lia.
      rewrite Nat.add_0_r in Hh. simpl in Hh. congruence.
  - destruct (head (Re.match_items r pos (c :: s))) as [[g' rest']|] eqn:E; simpl.
    + split.
      * intros [= ->]. exists 0, rest'. rewrite Nat.add_0_r. split_and!; [lia | done | lia].
      * intros (k & rest & Hk & Hh & Hlt). destruct k as [|k].
        -- rewrite Nat.add_0_r in Hh. simpl in Hh. congruence.
        -- specialize (Hlt 0 ltac:(lia)). rewrite Nat.add_0_r in Hlt. simpl in Hlt. congruence.
    + rewrite IH. split.
      * intros (k & rest & Hk & Hh & Hlt). exists (S k), rest.
        replace (pos + S k) with (S pos + k) by lia. split_and!; [lia | done |].
        intros [|j] Hj; [by rewrite Nat.add_0_r|].
        replace (pos + S j) with (S pos + j) by lia. apply Hlt. lia.
      * intros (k & rest & Hk & Hh & Hlt). destruct k as [|k].
        { rewrite Nat.add_0_r in Hh. simpl in Hh. congruence. }
        exists k, rest. replace (S pos + k) with (pos + S k) by lia.
        split_and!; [lia | done |]. intros j Hj.
        replace (S pos + j) with (pos + S j) by lia. apply (Hlt (S j)). lia.
Qed.

Lemma search_from_None r pos s :
  Re.search_from r pos s = None ↔
  ∀ j, j ≤ length s → head (Re.match_items r (pos + j) (drop j s)) = None.
Proof.
  revert pos. induction s as [|c s IH]; intros pos; simpl.
  - destruct (head (Re.match_items r pos [])) as [[g' rest']|] eqn:E; simpl.
    + split; [done|]. intros H. specialize (H 0 ltac:(lia)).
      rewrite Nat.add_0_r in H. simpl in H. congruence.
    + split; [|done]. intros _ j Hj. assert (j = 0) as -> by lia.
      by rewrite Nat.add_0_r.
  - destruct (head (Re.match_items r pos (c :: s))) as [[g' rest']|] eqn:E; simpl.
    + split; [done|]. intros H. specialize (H 0 ltac:(lia)).
      rewrite Nat.add_0_r in H. simpl in H. congruence.
    + rewrite IH. split.
      * intros H [|j] Hj; [by rewrite Nat.add_0_r|].
        replace (pos + S j) with (S pos + j) by lia. apply H. lia.
      * intros H j Hj. replace (S pos + j) with (pos + S j) by lia.
        apply (H (S j)). lia.
Qed.

Lemma run_app cls g rest :
  all_in cls g → stops cls rest → run cls (g ++ rest) = length g.
Proof.
  intros Hg Hr. induction Hg as [|c g Hc _ IH]; simpl.
  - destruct rest as [|c rest]; [done|]. simpl.
    destruct (Re.in_class cls c) eqn:E; [|done].
    exfalso. apply (Hr c rest); [done | by rewrite E].
  - destruct (Re.in_class cls c); [by rewrite IH | done].
Qed.

Lemma stops_drop_run cls s : stops cls (drop (run cls s) s).
Proof.
  induction s as [|c s IH]; simpl; [by intros c rest' [=]|].
  destruct (Re.in_class cls c) eqn:E; simpl; [done|].
  intros c' rest' [= <- <-]. rewrite E. by intros [].
Qed.

Lemma run_pos cls g rest :
  g ≠ [] → all_in cls g → 1 ≤ run cls (g ++ rest).
Proof.
  intros Hne Hg. pose proof (all_in_run cls g rest Hg).
  destruct g; [done | simpl in *; lia].
Qed.

Lemma head_match_url_Some pos t gs rest :
  head (Re.match_items url_pattern pos t) = Some (gs, rest) ↔
  ∃ g, gs = [g] ∧ t = "/d/" ++ g ++ rest ∧ g ≠ [] ∧ all_in id_class g
       ∧ stops id_class rest.
Proof.
  rewrite head_match_url. split.
  - destruct t as [|c1 [|c2 [|c3 u]]]; [done..|].
    case_decide as H; [|done]. destruct H as (-> & -> & -> & Hrun).
    intros [= <- <-]. exists (take (run id_class u) u). split_and!.
    + done.
    + simpl. by rewrite take_drop.
    + intros E. apply (f_equal length) in E. rewrite length_take in E.
      pose proof (run_le id_class u). simpl in E. lia.
    + apply all_in_take_run.
    + apply stops_drop_run.
  - intros (g & -> & -> & Hne & Hg & Hstop). simpl.
    rewrite decide_True.
    + rewrite (run_app _ _ _ Hg Hstop). by rewrite take_app_length, drop_app_length.
    + split_and!; [done..|]. by apply run_pos.
Qed.

Lemma head_match_url_is_Some pos t :
  is_Some (head (Re.match_items url_pattern pos t)) ↔ starts_url t.
Proof.
  split.
  - intros [[gs rest] H]. apply head_match_url_Some in H as (g & _ & -> & ? & ? & _).
    by exists g, rest.
  - intros (g & post & -> & Hne & Hg). rewrite head_match_url. simpl.
    rewrite decide_True; [done|]. split_and!; [done..|]. by apply run_pos.
Qed.

Lemma url_occurrence_drop s pre g post :
  url_occurrence s pre g post → starts_url (drop (length pre) s) ∧ length pre ≤ length s.
Proof.
  intros (-> & Hne & Hg). rewrite drop_app_length. split; [by exists g, post|].
  rewrite length_app. lia.
Qed.

Lemma search_url_Some s gs :
  Re.search url_pattern s = Some gs ↔ ∃ g, gs = [g] ∧ first_capture s g.
Proof.
  unfold Re.search. rewrite search_from_spec. split.
  - intros (k & rest & Hk & Hh & Hlt).
    apply (head_match_url_Some (0 + k)) in Hh as (g & -> & Hd & Hne & Hg & Hstop).
    exists g. split; [done|]. exists (take k s), rest. split; [|split].
    + split_and!; [|done..]. rewrite <- Hd. by rewrite take_drop.
    + exact Hstop.
    + intros pre' g' post' Hocc. rewrite length_take_le by done.
      destruct (decide (k ≤ length pre')) as [|Hn]; [done|].
      apply url_occurrence_drop in Hocc as [Hs _].
      apply (head_match_url_is_Some (0 + length pre')) in Hs.
      rewrite Hlt in Hs by lia. by destruct Hs.
  - intros (g & -> & pre & post & Hocc & Hstop & Hleft).
    exists (length pre), post. pose proof Hocc as (Hs & Hne & Hg). split_and!.
    + by apply url_occurrence_drop in Hocc as [_ ?].
    + apply head_match_url_Some. exists g. split_and!; try done.
      subst s. by rewrite drop_app_length.
    + intros j Hj. apply eq_None_not_Some. intros Hsome.
      apply head_match_url_is_Some in Hsome as (g' & post' & Hd & Hne' & Hg').
      assert (url_occurrence s (take j s) g' post') as Hocc'.
      { split_and!; [|done..]. rewrite <- Hd. by rewrite take_drop. }
      apply Hleft in Hocc'. rewrite length_take in Hocc'. lia.
Qed.

Lemma search_url_None s :
  Re.search url_pattern s = None ↔ ¬ ∃ pre g post, url_occurrence s pre g post.
Proof.
  unfold Re.search. rewrite search_from_None. split.
  - intros Hnone (pre & g & post & Hocc).
    apply url_occurrence_drop in Hocc as [Hs Hle].
    apply (head_match_url_is_Some (0 + length pre)) in Hs.
    rewrite Hnone in Hs by done. by destruct Hs.
  - intros Hno j Hj. apply eq_None_not_Some. intros Hsome.
    apply head_match_url_is_Some in Hsome as (g & post & Hd & Hne & Hg).
    apply Hno. exists (take j s), g, post. split_and!; [|done..].
    rewrite <- Hd. by rewrite take_drop.
Qed.

(** C4, amended.  [get_parsed_sheet_id] is defined on every string [raw].
    When [raw] is canonical (40 to 50 characters of [[A-Za-z0-9-_]]) it is
    returned unchanged.  Otherwise, when [raw] contains [/d/] followed by
    identifier characters, the group captured at the leftmost such place is
    returned (and there is one).  Otherwise, and in no other case, it raises:
    the exception is the built-in [RuntimeError], the code having no class
    of its own for a failed resolution, and its message is
    [Spreadsheet ID not found in the input: ] followed by [raw] and a full
    stop, so that it names the input. *)
Theorem get_parsed_sheet_id_spec (raw : str) :
  (canonical raw → get_parsed_sheet_id raw = Ok raw)
  ∧ (¬ canonical raw → ∀ g, first_capture raw g → get_parsed_sheet_id raw = Ok g)
  ∧ (¬ canonical raw → (∃ pre g post, url_occurrence raw pre g post) →
       ∃ g, first_capture raw g ∧ get_parsed_sheet_id raw = Ok g)
  ∧ (get_parsed_sheet_id raw
     = Raise (RuntimeError ("Spreadsheet ID not found in the input: " ++ raw ++ "."))
     ↔ ¬ canonical raw ∧ ¬ ∃ pre g post, url_occurrence raw pre g post)
  ∧ (∀ e, get_parsed_sheet_id raw = Raise e →
          e = RuntimeError ("Spreadsheet ID not found in the input: " ++ raw ++ ".")).
Proof.
  unfold get_parsed_sheet_id, not_found_message.
  pose proof (fullmatch_id_pattern raw) as Hfull.
  destruct (Re.fullmatch id_pattern raw) as [gs|] eqn:Ef.
  { assert (canonical raw) as Hc by (apply Hfull; eauto).
    split_and!; [done | done | done | split; [done | tauto] | done]. }
  assert (¬ canonical raw) as Hc by (intros H; apply Hfull in H; by destruct H).
  destruct (Re.search url_pattern raw) as [gs|] eqn:Es.
  - apply search_url_Some in Es as (g & -> & Hfirst). simpl.
    assert (∀ g', first_capture raw g' → g' = g) as Huniq.
    { intros g' Hg'. assert (Re.search url_pattern raw = Some [g']) as E'
        by (apply search_url_Some; eauto).
      assert (Re.search url_pattern raw = Some [g]) as E
        by (apply search_url_Some; eauto). congruence. }
    split_and!.
    + done.
    + intros _ g' Hg'. by rewrite (Huniq g' Hg').
    + intros _ _. eauto.
    + split; [done|]. intros [_ Hno]. exfalso. apply Hno.
      destruct Hfirst as (pre & post & Hocc & _). eauto.
    + done.
  - pose proof (proj1 (search_url_None raw) Es) as Hno. split_and!.
    + done.
    + intros _ g (pre & post & Hocc & _). exfalso. apply Hno. eauto.
    + intros _ Hocc. by exfalso.
    + done.
    + by intros e [= <-].
Qed.

Lemma get_parsed_sheet_id_spec_witness :
  canonical "1BxiMVs0XRA5nFMdKvBdBZjgmUUqptlbs74OgvE2upms"
  ∧ get_parsed_sheet_id "1BxiMVs0XRA5nFMdKvBdBZjgmUUqptlbs74OgvE2upms"
    = Ok "1BxiMVs0XRA5nFMdKvBdBZjgmUUqptlbs74OgvE2upms"
  ∧ ¬ canonical "https://docs.google.com/spreadsheets/d/1a-B_c/edit#gid=0"
  ∧ (∃ g, first_capture "https://docs.google.com/spreadsheets/d/1a-B_c/edit#gid=0" g
          ∧ get_parsed_sheet_id "https://docs.google.com/spreadsheets/d/1a-B_c/edit#gid=0"
            = Ok g)
  ∧ ¬ canonical "sheet/d/!"
  ∧ (¬ ∃ pre g post, url_occurrence "sheet/d/!" pre g post)
  ∧ get_parsed_sheet_id "sheet/d/!"
    = Raise (RuntimeError "Spreadsheet ID not found in the input: sheet/d/!.").
Proof.
  assert (¬ canonical "sheet/d/!") as Hshort.
  { intros [[Hlen _] _]. simpl in Hlen. lia. }
  assert (¬ ∃ pre g post, url_occurrence "sheet/d/!" pre g post) as Hnone.
  { by apply search_url_None. }
  assert (canonical "1BxiMVs0XRA5nFMdKvBdBZjgmUUqptlbs74OgvE2upms") as Hc.
  { split; [simpl; lia|]. repeat (constructor; [exact I|]). constructor. }
  assert (¬ canonical "https://docs.google.com/spreadsheets/d/1a-B_c/edit#gid=0") as Hn.
  { intros [[_ Hlen] _]. simpl in Hlen. lia. }
  split; [exact Hc|]. split; [exact (proj1 (get_parsed_sheet_id_spec _) Hc)|].
  split; [exact Hn|]. split.
  - apply (proj1 (proj2 (proj2 (get_parsed_sheet_id_spec _))) Hn).
    exists "https://docs.google.com/spreadsheets", "1a-B_c", "/edit#gid=0".
    split; [reflexivity|]. split; [discriminate|].
    repeat (constructor; [exact I|]). constructor.
  - split; [exact Hshort|]. split; [exact Hnone|].
    exact (proj2 (proj1 (proj2 (proj2 (proj2 (get_parsed_sheet_id_spec "sheet/d/!")))))
             (conj Hshort Hnone)).
Defined.

(** C4 as it is stated fails on the class of the exception: on the
    specification's own example the function raises the built-in
    [RuntimeError], and every exception it raises there is that one; no
    [ResolutionError] exists in the code. *)
Lemma get_parsed_sheet_id_raises_runtime_error :
  get_parsed_sheet_id "not a valid anything"
  = Raise (RuntimeError "Spreadsheet ID not found in the input: not a valid anything.")
  ∧ ∀ e, get_parsed_sheet_id "not a valid anything" = Raise e →
         ∃ msg, e = RuntimeError msg.
Proof.
  split; [reflexivity|]. intros e [= <-]. eauto.
Qed.

(** ** The field-name rule *)

Lemma in_class_space c : Re.in_class [Re.Space] c = isspace c.
Proof. unfold Re.in_class. simpl. by rewrite orb_false_r. Qed.

Lemma match_items_atom a pos s :
  Re.match_items [Re.Atom a] pos s = (λ p, ([], p.2)) <$> Re.match_atom a s.
Proof.
  cbn [Re.match_items]. induction (Re.match_atom a s) as [|p l IH]; [done|].
  cbn [mbind list_bind fmap list_fmap] in *. by rewrite <- IH.
Qed.

Lemma head_match_whitespace pos s :
  head (Re.match_items whitespace_run pos s)
  = if decide (1 ≤ run [Re.Space] s)
    then Some ([], drop (run [Re.Space] s) s) else None.
Proof.
  unfold whitespace_run. rewrite match_items_atom.
  pose proof (head_match_rep [Re.Space] 1 None s) as Hh.
  cbv zeta in Hh. cbn [from_option] in Hh.
  rewrite (Nat.min_r _ _ (run_le _ _)) in Hh.
  destruct (Re.match_atom _ s) as [|p l]; simpl in *; case_decide; by simplify_eq.
Qed.

Lemma sub_whitespace pos s :
  Re.sub_from whitespace_run "_" pos (run [Re.Space] s) s = squeeze true s
  ∧ Re.sub_from whitespace_run "_" pos 0 s = squeeze false s.
Proof.
  revert pos. induction s as [|c s IH]; intros pos.
  - split; [done|]. cbn [Re.sub_from]. rewrite head_match_whitespace. done.
  - cbn [run squeeze]. rewrite in_class_space.
    destruct (IH (S pos)) as [IH1 IH2]. destruct (isspace c) eqn:E.
    + split; [done|]. cbn [Re.sub_from]. rewrite head_match_whitespace.
      cbn [run]. rewrite in_class_space, E. rewrite decide_True by lia.
      cbn [snd drop]. rewrite length_drop.
      pose proof (run_le [Re.Space] s).
      replace (length (c :: s) - (length s - run [Re.Space] s))
        with (S (run [Re.Space] s)) by (simpl; lia).
      by rewrite IH1.
    + assert (Re.sub_from whitespace_run "_" pos 0 (c :: s) = c :: squeeze false s).
      { cbn [Re.sub_from]. rewrite head_match_whitespace.
        cbn [run]. rewrite in_class_space, E. rewrite decide_False by lia.
        by rewrite IH2. }
      done.
Qed.

Lemma normalize_squeeze h : normalize h = squeeze false (strip h).
Proof. unfold normalize, Re.sub. apply sub_whitespace. Qed.

Lemma squeeze_no_space b s : no_space (squeeze b s).
Proof.
  revert b. induction s as [|c s IH]; intros b; simpl; [constructor|].
  destruct (isspace c) eqn:E.
  - destruct b; [apply IH|]. constructor; [by intros [] | apply IH].
  - constructor; [by rewrite E; intros [] | apply IH].
Qed.

Lemma squeeze_id b s : no_space s → squeeze b s = s.
Proof.
  intros H. revert b. induction H as [|c s Hc _ IH]; intros b; simpl; [done|].
  destruct (isspace c); [by destruct Hc|]. by rewrite IH.
Qed.

Lemma lstrip_id s : no_space s → lstrip s = s.
Proof. intros [|c s' Hc _]; simpl; [done|]. by destruct (isspace c); [destruct Hc|]. Qed.

Lemma rstrip_id s : no_space s → rstrip s = s.
Proof.
  induction 1 as [|c s Hc _ IH]; simpl; [done|]. rewrite IH.
  destruct s; [|done]. by destruct (isspace c); [destruct Hc|].
Qed.

(** C8.  The field-name rule (strip the surrounding whitespace, replace each
    run of whitespace by one underscore) is idempotent. *)
Theorem normalize_idempotent (s : str) : normalize (normalize s) = normalize s.
Proof.
  rewrite (normalize_squeeze (normalize s)).
  assert (no_space (normalize s)) as H by (rewrite normalize_squeeze; apply squeeze_no_space).
  unfold strip. by rewrite (lstrip_id _ H), (rstrip_id _ H), (squeeze_id _ _ H).
Qed.

(** ** [get_first_line_range] *)

Lemma head_omap_Some {A B} (f : A → option B) (l : list A) (y : B) :
  head (omap f l) = Some y ↔
  ∃ i x, l !! i = Some x ∧ f x = Some y
    ∧ ∀ j x', j < i → l !! j = Some x' → f x' = None.
Proof.
  induction l as [|x l IH]; simpl.
  - split; [done|]. by intros (i & x & ? & _).
  - destruct (f x) as [y'|] eqn:E; simpl.
    + split.
      * intros [= ->]. exists 0, x. split_and!; [done..|]. intros j x' Hj. lia.
      * intros (i & x' & Hi & Hx & Hlt). destruct i as [|i]; simpl in Hi.
        -- by simplify_eq.
        -- specialize (Hlt 0 x ltac:(lia) eq_refl). congruence.
    + rewrite IH. split.
      * intros (i & x' & Hi & Hx & Hlt). exists (S i), x'. split_and!; [done..|].
        intros [|j] x'' Hj Hl; simpl in Hl; [by simplify_eq|]. eapply Hlt; [|done]. lia.
      * intros (i & x' & Hi & Hx & Hlt). destruct i as [|i]; simpl in Hi.
        { simplify_eq. }
        exists i, x'. split_and!; [done..|]. intros j x'' Hj Hl.
        apply (Hlt (S j) x''); [lia | done].
Qed.

Lemma head_omap_None {A B} (f : A → option B) (l : list A) :
  head (omap f l) = None ↔ ∀ x, x ∈ l → f x = None.
Proof.
  rewrite head_None. split.
  - intros E x Hx. destruct (f x) as [y|] eqn:Ef; [|done].
    assert (y ∈ omap f l) as Hy by (apply list_elem_of_omap; eauto).
    rewrite E in Hy. by apply elem_of_nil in Hy.
  - intros H. destruct (omap f l) as [|y l'] eqn:E; [done|].
    assert (y ∈ omap f l) as Hy by (rewrite E; left).
    apply list_elem_of_omap in Hy as (x & Hx & Hf). rewrite H in Hf; done.
Qed.

Lemma range_match_Some r gs : range_match r = Some gs ↔ first_shape r gs.
Proof. apply head_omap_Some. Qed.

Lemma range_match_None r : range_match r = None ↔ no_shape r.
Proof. apply head_omap_None. Qed.

Lemma rmatch_groups p r gs :
  Re.rmatch p r = Some gs →
  length gs = length (omap (λ i, match i with Re.Group b => Some b | _ => None end) p).
Proof.
  unfold Re.rmatch. destruct (head _) as [m|] eqn:E; [|done]. intros [= <-].
  apply head_Some_elem_of in E. by apply match_items_groups in E.
Qed.

Lemma range_match_four r gs :
  range_match r = Some gs → ∃ sc sr ec er, gs = [sc; sr; ec; er].
Proof.
  intros (i & p & Hi & Hm & _)%range_match_Some.
  apply rmatch_groups in Hm.
  assert (length gs = 4) as Hl.
  { do 8 (destruct i as [|i]; [by simplify_eq/=|]). done. }
  destruct gs as [|sc [|sr [|ec [|er [|]]]]]; simplify_eq/=. eauto.
Qed.

Lemma truthy_true s : truthy s = true ↔ s ≠ [].
Proof. by destruct s. Qed.

(** *** The eight shapes, read off the patterns *)

Lemma a1_allowed_regexp_table : a1_allowed_regexp = table_pattern <$> a1_table.
Proof. reflexivity. Qed.

Lemma elem_of_match_atoms_nil s x r :
  (x, r) ∈ Re.match_atoms [] s ↔ x = [] ∧ r = s.
Proof. simpl. rewrite list_elem_of_singleton. split; [by intros [= -> ->] | by intros [-> ->]]. Qed.

Lemma elem_of_match_atoms_one a s x r :
  (x, r) ∈ Re.match_atoms [a] s ↔ (x, r) ∈ Re.match_atom a s.
Proof.
  cbn [Re.match_atoms]. rewrite list_elem_of_bind. split.
  - intros ([x' r'] & Hin & Hm). cbn in Hin. apply list_elem_of_singleton in Hin.
    injection Hin as -> ->. by rewrite app_nil_r.
  - intros Hm. exists (x, r). split; [|done]. cbn. rewrite app_nil_r. left.
Qed.

Lemma elem_of_part p s x r :
  (x, r) ∈ match part_item p with
           | Re.Group body => Re.match_atoms body s
           | _ => []
           end
  ↔ s = x ++ r ∧ accepts p x.
Proof.
  destruct p; cbn [part_item COL ROW NIL accepts].
  - rewrite elem_of_match_atoms_one, elem_of_match_rep. unfold col. simpl. tauto.
  - rewrite elem_of_match_atoms_one, elem_of_match_rep. unfold row. simpl. tauto.
  - rewrite elem_of_match_atoms_nil. split; [by intros [-> ->] | by intros [-> ->]].
Qed.

Lemma elem_of_match_part p r pos s gs rest :
  (gs, rest) ∈ Re.match_items (part_item p :: r) pos s ↔
  ∃ x s' gs', s = x ++ s' ∧ accepts p x ∧ gs = x :: gs'
    ∧ (gs', rest) ∈ Re.match_items r (pos + length x) s'.
Proof.
  pose proof (elem_of_part p s) as Hp.
  destruct p; unfold part_item, COL, ROW, NIL in *; cbn [Re.match_items];
    rewrite list_elem_of_bind; (split;
    [ intros ([x s'] & Hin & Hx); apply list_elem_of_fmap in Hin as ([gs' rest'] & [= -> ->] & Hin);
      apply Hp in Hx as [-> Hx]; eauto 10
    | intros (x & s' & gs' & -> & Hx & -> & Hin); exists (x, s'); split;
      [ apply list_elem_of_fmap; by exists (gs', rest) | by apply Hp ] ]).
Qed.

Lemma elem_of_match_colon r pos s gs rest :
  (gs, rest) ∈ Re.match_items (COLON :: r) pos s ↔
  ∃ s', s = ":" ++ s' ∧ (gs, rest) ∈ Re.match_items r (pos + 1) s'.
Proof.
  cbn [COLON Re.match_items Re.match_atom]. rewrite list_elem_of_bind. split.
  - intros ([x s'] & Hin & Hx). destruct s as [|c s]; [by apply elem_of_nil in Hx|].
    case_decide; [|by apply elem_of_nil in Hx]. subst c.
    apply list_elem_of_singleton in Hx. injection Hx as -> ->.
    exists s. split; [done | exact Hin].
  - intros (s' & -> & Hin). exists ([":"%char], s'). split; [exact Hin|].
    simpl. left.
Qed.

Lemma elem_of_match_eol pos s gs rest :
  (gs, rest) ∈ Re.match_items [Re.Eol] pos s ↔ gs = [] ∧ rest = s ∧ Re.at_end s.
Proof.
  cbn [Re.match_items]. destruct (Re.at_end s).
  - rewrite list_elem_of_singleton. split; [by intros [= -> ->] | by intros (-> & -> & _)].
  - rewrite elem_of_nil. split; [done | by intros (_ & _ & ?)].
Qed.

Lemma match_items_bol r s : Re.match_items (Re.Bol :: r) 0 s = Re.match_items r 0 s.
Proof. done. Qed.

Lemma elem_of_a1_pattern t s gs rest :
  (gs, rest) ∈ Re.match_items (table_pattern t) 0 s ↔ splits t s gs rest.
Proof.
  destruct t as [[[[colon a] b] c] d]. unfold table_pattern, a1_pattern, splits.
  cbn [app]. rewrite match_items_bol.
  rewrite elem_of_match_part. setoid_rewrite elem_of_match_part.
  destruct colon; cbn [app].
  - setoid_rewrite elem_of_match_colon. setoid_rewrite elem_of_match_part.
    setoid_rewrite elem_of_match_part. setoid_rewrite elem_of_match_eol. split.
    + intros (sc & s1 & g1 & -> & Ha & -> & sr & s2 & g2 & -> & Hb & -> & s3 & ->
              & ec & s4 & g3 & -> & Hc & -> & er & s5 & g4 & -> & Hd & -> & -> & -> & He).
      exists sc, sr, ec, er. by split_and!.
    + intros (sc & sr & ec & er & -> & -> & Ha & Hb & Hc & Hd & He).
      eexists sc, _, _. split_and!; [done..|]. eexists sr, _, _. split_and!; [done..|].
      eexists. split; [done|]. eexists ec, _, _. split_and!; [done..|].
      eexists er, _, _. by split_and!.
  - setoid_rewrite elem_of_match_part.
    setoid_rewrite elem_of_match_part. setoid_rewrite elem_of_match_eol. split.
    + intros (sc & s1 & g1 & -> & Ha & -> & sr & s2 & g2 & -> & Hb & ->
              & ec & s4 & g3 & -> & Hc & -> & er & s5 & g4 & -> & Hd & -> & -> & -> & He).
      exists sc, sr, ec, er. by split_and!.
    + intros (sc & sr & ec & er & -> & -> & Ha & Hb & Hc & Hd & He).
      eexists sc, _, _. split_and!; [done..|]. eexists sr, _, _. split_and!; [done..|].
      eexists ec, _, _. split_and!; [done..|].
      eexists er, _, _. by split_and!.
Qed.

Lemma split_run_app cls x y :
  all_in cls x → stops cls y → split_run cls (x ++ y) = (x, y).
Proof.
  intros Hx Hy. unfold split_run. rewrite (run_app _ _ _ Hx Hy).
  by rewrite take_app_length, drop_app_length.
Qed.

Lemma digit_not_letter c : Re.in_class [Re.Digit] c → ¬ Re.in_class letters c.
Proof. destruct c as [[] [] [] [] [] [] [] []]; cbv; tauto. Qed.

Lemma letter_not_digit c : Re.in_class letters c → ¬ Re.in_class [Re.Digit] c.
Proof. intros Hl Hd. by apply (digit_not_letter c). Qed.

Lemma stops_nil cls : stops cls [].
Proof. by intros c rest' [=]. Qed.

Lemma stops_cons cls c s : ¬ Re.in_class cls c → stops cls (c :: s).
Proof. by intros Hc c' rest' [= <- <-]. Qed.

Lemma stops_app cls cls' x y :
  all_in cls' x → (∀ c, Re.in_class cls' c → ¬ Re.in_class cls c) →
  (x = [] → stops cls y) → stops cls (x ++ y).
Proof.
  intros Hx Hd Hy. destruct Hx as [|c x Hc _]; [by apply Hy|].
  apply stops_cons. by apply Hd.
Qed.

Lemma at_end_cases rest : Re.at_end rest → rest = [] ∨ rest = ["010"%char].
Proof.
  destruct rest as [|c [|c' rest]]; simpl.
  - by left.
  - intros ->%bool_decide_unpack. by right.
  - intros [].
Qed.

Lemma stops_at_end_letters rest : Re.at_end rest → stops letters rest.
Proof. intros [-> | ->]%at_end_cases; [apply stops_nil | apply stops_cons; cbv; tauto]. Qed.

Lemma stops_at_end_digits rest : Re.at_end rest → stops [Re.Digit] rest.
Proof. intros [-> | ->]%at_end_cases; [apply stops_nil | apply stops_cons; cbv; tauto]. Qed.

Lemma col_all x : col x → all_in letters x ∧ x ≠ [].
Proof. intros [[Hl _] Ha]. split; [done|]. intros ->. simpl in Hl. lia. Qed.

Lemma row_all x : row x → all_in [Re.Digit] x ∧ x ≠ [].
Proof. intros [[Hl _] Ha]. split; [done|]. intros ->. simpl in Hl. lia. Qed.

Lemma all_in_nil cls : all_in cls [].
Proof. constructor. Qed.

Lemma split_run_stops cls y : stops cls y → split_run cls y = ([], y).
Proof. intros Hy. apply (split_run_app cls [] y); [apply all_in_nil | exact Hy]. Qed.

Ltac side_all := first [assumption | apply all_in_nil].

Ltac side_stops :=
  first
    [ assumption
    | apply stops_nil
    | apply stops_cons; cbv; tauto
    | eapply stops_app;
      [ eassumption
      | first [apply digit_not_letter | apply letter_not_digit]
      | intros; congruence ] ].

Ltac parse_step :=
  first
    [ rewrite split_run_app by first [side_all | side_stops]
    | rewrite split_run_stops by side_stops
    | rewrite decide_True by reflexivity ];
  cbv beta iota.

Lemma splits_parse t s gs rest :
  t ∈ a1_table → splits t s gs rest → a1_parse s = (t.1.1.1.1, gs, rest).
Proof.
  intros Ht Hs. unfold a1_table in Ht.
  repeat (apply elem_of_cons in Ht as [->|Ht]); [..|by apply elem_of_nil in Ht];
    destruct Hs as (sc & sr & ec & er & -> & -> & Ha & Hb & Hc & Hd & He);
    cbn [accepts] in *; subst;
    repeat match goal with
           | H : col _ |- _ => apply col_all in H as [? ?]
           | H : row _ |- _ => apply row_all in H as [? ?]
           end;
    pose proof (stops_at_end_letters _ He);
    pose proof (stops_at_end_digits _ He);
    unfold a1_parse; cbn [app fst]; repeat parse_step.
  all: try reflexivity.
  destruct (at_end_cases _ He) as [-> | ->]; cbv beta iota.
  - by repeat parse_step.
  - rewrite decide_False by discriminate. cbv beta iota. by repeat parse_step.
Qed.

Lemma NoDup_a1_table : NoDup a1_table.
Proof. apply (bool_decide_unpack _). reflexivity. Qed.

Lemma accepts_inj p p' x : accepts p x → accepts p' x → p = p'.
Proof.
  destruct p, p'; cbn [accepts]; try done;
    repeat match goal with
           | |- col _ → _ => intros [? ?]%col_all
           | |- row _ → _ => intros [? ?]%row_all
           | |- _ = _ → _ => intros ?
           end; try congruence.
  all: destruct x as [|c x]; [done|];
    repeat match goal with
           | H : all_in _ (_ :: _) |- _ => apply Forall_cons in H as [? _]
           end;
    exfalso; by eapply digit_not_letter.
Qed.

Lemma splits_unique t t' s gs gs' rest rest' :
  t ∈ a1_table → t' ∈ a1_table →
  splits t s gs rest → splits t' s gs' rest' →
  t = t' ∧ gs = gs' ∧ rest = rest'.
Proof.
  intros Ht Ht' Hs Hs'.
  pose proof (splits_parse _ _ _ _ Ht Hs) as Hp.
  pose proof (splits_parse _ _ _ _ Ht' Hs') as Hp'.
  rewrite Hp in Hp'. injection Hp' as Hcolon <- <-. split; [|done].
  destruct t as [[[[colon a] b] c] d], t' as [[[[colon' a'] b'] c'] d'].
  simpl in Hcolon. subst colon'.
  destruct Hs as (sc & sr & ec & er & -> & _ & Ha & Hb & Hc & Hd & _).
  destruct Hs' as (sc' & sr' & ec' & er' & [= <- <- <- <-] & _ & Ha' & Hb' & Hc' & Hd' & _).
  by rewrite (accepts_inj _ _ _ Ha Ha'), (accepts_inj _ _ _ Hb Hb'),
             (accepts_inj _ _ _ Hc Hc'), (accepts_inj _ _ _ Hd Hd').
Qed.

Lemma rmatch_table t r gs :
  t ∈ a1_table →
  Re.rmatch (table_pattern t) r = Some gs ↔ ∃ rest, splits t r gs rest.
Proof.
  intros Ht. unfold Re.rmatch. split.
  - destruct (head _) as [[gs' rest]|] eqn:E; [|done]. intros [= <-].
    apply head_Some_elem_of, elem_of_a1_pattern in E. eauto.
  - intros [rest Hs]. pose proof (proj2 (elem_of_a1_pattern t r gs rest) Hs) as Hin.
    destruct (Re.match_items _ _ _) as [|[gs' rest'] l] eqn:E;
      [by apply elem_of_nil in Hin|].
    assert ((gs', rest') ∈ Re.match_items (table_pattern t) 0 r) as Hin'
      by (rewrite E; left).
    apply elem_of_a1_pattern in Hin'.
    destruct (splits_unique _ _ _ _ _ _ _ Ht Ht Hs Hin') as (_ & -> & _). done.
Qed.

Lemma first_shape_table r gs :
  first_shape r gs ↔ ∃ t rest, t ∈ a1_table ∧ splits t r gs rest.
Proof.
  unfold first_shape. rewrite a1_allowed_regexp_table. split.
  - intros (i & p & Hi & Hm & _).
    apply list_lookup_fmap_Some in Hi as (t & -> & Ht).
    apply list_elem_of_lookup_2 in Ht.
    apply rmatch_table in Hm as [rest Hs]; eauto.
  - intros (t & rest & Ht & Hs). pose proof Ht as [i Hi]%list_elem_of_lookup_1.
    exists i, (table_pattern t). split_and!.
    + apply list_lookup_fmap_Some. eauto.
    + apply rmatch_table; eauto.
    + intros j q Hj Hq. apply list_lookup_fmap_Some in Hq as (t' & -> & Ht').
      destruct (Re.rmatch (table_pattern t') r) as [gs'|] eqn:E; [|done].
      exfalso. pose proof (list_elem_of_lookup_2 _ _ _ Ht') as Hin'.
      apply rmatch_table in E as [rest' Hs']; [|done].
      destruct (splits_unique _ _ _ _ _ _ _ Ht Hin' Hs Hs') as (<- & _ & _).
      pose proof (NoDup_lookup _ _ _ _ NoDup_a1_table Hi Ht'). lia.
Qed.

Lemma shape_of_splits t r gs rest :
  t ∈ a1_table → splits t r gs rest → ∃ r', chomped r r' ∧ a1_shape r' gs.
Proof.
  intros Ht Hs. unfold a1_table in Ht.
  repeat (apply elem_of_cons in Ht as [->|Ht]); [..|by apply elem_of_nil in Ht];
    destruct Hs as (sc & sr & ec & er & -> & -> & Ha & Hb & Hc & Hd & He);
    cbn [accepts] in *; subst; cbn [app];
    apply at_end_cases in He as [-> | ->];
    (eexists; split; [|by constructor]); unfold chomped;
    first [ left; by rewrite ?app_nil_r
          | right; by rewrite <- ?app_assoc ].
Qed.

Lemma splits_of_shape r r' gs :
  chomped r r' → a1_shape r' gs → ∃ t rest, t ∈ a1_table ∧ splits t r gs rest.
Proof.
  intros Hr Hs.
  assert (∃ rest, r = r' ++ rest ∧ Re.at_end rest) as (rest & -> & He).
  { destruct Hr as [-> | ->]; [exists [] | exists ["010"%char]]; by rewrite ?app_nil_r. }
  destruct Hs.
  - exists (false, PCol, PRow, PNil, PNil), rest. split; [apply (bool_decide_unpack _); reflexivity|].
    exists c, r, [], []. split_and!; try done. by rewrite <- ?app_assoc.
  - exists (true, PCol, PNil, PCol, PNil), rest. split; [apply (bool_decide_unpack _); reflexivity|].
    exists c, [], c', []. split_and!; try done. by rewrite <- ?app_assoc.
  - exists (true, PNil, PRow, PNil, PRow), rest. split; [apply (bool_decide_unpack _); reflexivity|].
    exists [], r, [], r'. split_and!; try done. by rewrite <- ?app_assoc.
  - exists (true, PCol, PRow, PNil, PRow), rest. split; [apply (bool_decide_unpack _); reflexivity|].
    exists c, r, [], r'. split_and!; try done. by rewrite <- ?app_assoc.
  - exists (true, PCol, PRow, PCol, PNil), rest. split; [apply (bool_decide_unpack _); reflexivity|].
    exists c, r, c', []. split_and!; try done. by rewrite <- ?app_assoc.
  - exists (true, PCol, PRow, PCol, PRow), rest. split; [apply (bool_decide_unpack _); reflexivity|].
    exists c, r, c', r'. split_and!; try done. by rewrite <- ?app_assoc.
  - exists (true, PCol, PNil, PCol, PRow), rest. split; [apply (bool_decide_unpack _); reflexivity|].
    exists c, [], c', r'. split_and!; try done. by rewrite <- ?app_assoc.
  - exists (true, PNil, PRow, PCol, PRow), rest. split; [apply (bool_decide_unpack _); reflexivity|].
    exists [], r, c', r'. split_and!; try done. by rewrite <- ?app_assoc.
Qed.

(** Matching one of the eight patterns is having one of the eight shapes,
    up to a newline that ends the range ([$] matches before it). *)
Lemma first_shape_grammar r gs :
  first_shape r gs ↔ ∃ r', chomped r r' ∧ a1_shape r' gs.
Proof.
  rewrite first_shape_table. split.
  - intros (t & rest & Ht & Hs). by eapply shape_of_splits.
  - intros (r' & Hr & Hs). by eapply splits_of_shape.
Qed.

Lemma no_shape_first_shape r : no_shape r ↔ ¬ ∃ gs, first_shape r gs.
Proof.
  rewrite <- range_match_None. split.
  - intros Hn [gs Hs%range_match_Some]. congruence.
  - intros Hno. destruct (range_match r) as [gs|] eqn:E; [|done].
    exfalso. apply Hno. exists gs. by apply range_match_Some.
Qed.

Lemma no_shape_grammar r :
  no_shape r ↔ ¬ ∃ r' gs, chomped r r' ∧ a1_shape r' gs.
Proof.
  rewrite no_shape_first_shape. split.
  - intros Hno (r' & gs & Hr & Hs). apply Hno. exists gs. apply first_shape_grammar. eauto.
  - intros Hno [gs (r' & Hr & Hs)%first_shape_grammar]. apply Hno. eauto.
Qed.

(** A pattern that matches is the first that matches: the eight are disjoint. *)
Lemma first_shape_any r gs p :
  p ∈ a1_allowed_regexp → Re.rmatch p r = Some gs → first_shape r gs.
Proof.
  rewrite a1_allowed_regexp_table. intros (t & -> & Ht)%list_elem_of_fmap Hm.
  apply first_shape_table. apply rmatch_table in Hm as [rest Hs]; eauto.
Qed.

(** C3.  [get_first_line_range] answers ["1:1"] when the entry has no range.
    When the range matches one of the eight shapes with the groups
    [sc], [sr], [ec], [er], it answers [sc ++ line ++ ":" ++ end_column ++ line]
    where [line] is the numeric minimum of [sr] and [er] when both are there,
    else the one that is there, else ["1"], and [end_column] is [sc] exactly
    when [ec] and [er] are both empty, else [ec].  Matching a shape is
    matching any of the eight patterns (they are disjoint), which is having
    one of the eight forms of [a1_shape], a newline at the end being let
    through by [$]; a match always has the four groups.  In particular
    ["C4:G14"] gives ["C4:G4"], ["A5"] gives ["A5:A5"] and ["1:5"] gives
    ["1:1"]. *)
Theorem get_first_line_range_spec :
  (∀ c, Cfg.range c = None → get_first_line_range c = Ok "1:1")
  ∧ (∀ c r sc sr ec er,
       Cfg.range c = Some r → first_shape r [sc; sr; ec; er] →
       ∃ line end_column,
         get_first_line_range c = Ok (sc ++ line ++ ":" ++ end_column ++ line)
         ∧ (sr ≠ [] → er ≠ [] → line = str_of_int (N.min (int sr) (int er)))
         ∧ (sr ≠ [] → er = [] → line = sr)
         ∧ (sr = [] → er ≠ [] → line = er)
         ∧ (sr = [] → er = [] → line = "1")
         ∧ (ec = [] ∧ er = [] → end_column = sc)
         ∧ (¬ (ec = [] ∧ er = []) → end_column = ec))
  ∧ (∀ r gs, first_shape r gs → ∃ sc sr ec er, gs = [sc; sr; ec; er])
  ∧ (∀ r gs p, p ∈ a1_allowed_regexp → Re.rmatch p r = Some gs → first_shape r gs)
  ∧ (∀ r gs, first_shape r gs ↔ ∃ r', chomped r r' ∧ a1_shape r' gs)
  ∧ get_first_line_range (range_cfg (Some "C4:G14")) = Ok "C4:G4"
  ∧ get_first_line_range (range_cfg (Some "A5")) = Ok "A5:A5"
  ∧ get_first_line_range (range_cfg (Some "1:5")) = Ok "1:1".
Proof.
  split_and!; [| | | | |done..].
  - intros c Hc. unfold get_first_line_range. by rewrite Hc.
  - intros c r sc sr ec er Hc Hm%range_match_Some.
    unfold get_first_line_range. rewrite Hc, Hm.
    eexists _, _. split; [reflexivity|]. unfold line_number.
    destruct sr, er, ec; simpl; split_and!; intuition (try congruence; done).
  - intros r gs Hm%range_match_Some. by apply range_match_four in Hm.
  - intros r gs p. apply first_shape_any.
  - apply first_shape_grammar.
Qed.

Lemma get_first_line_range_spec_witness :
  Cfg.range (range_cfg (Some "C4:G14")) = Some "C4:G14"
  ∧ first_shape "C4:G14" ["C"; "4"; "G"; "14"]
  ∧ ∃ line end_column,
      get_first_line_range (range_cfg (Some "C4:G14"))
      = Ok ("C" ++ line ++ ":" ++ end_column ++ line)
      ∧ line = str_of_int (N.min (int "4") (int "14"))
      ∧ end_column = "G".
Proof.
  assert (first_shape "C4:G14" ["C"; "4"; "G"; "14"]) as Hshape.
  { apply range_match_Some. reflexivity. }
  split; [reflexivity|]. split; [exact Hshape|].
  destruct (proj1 (proj2 get_first_line_range_spec)
              (range_cfg (Some "C4:G14")) "C4:G14" "C" "4" "G" "14" eq_refl Hshape)
    as (line & end_column & Hres & Hmin & _ & _ & _ & _ & Hend).
  exists line, end_column. split; [exact Hres|]. split.
  - apply Hmin; discriminate.
  - apply Hend. intros [Hec _]. discriminate Hec.
Defined.

(** The validation as the patterns perform it.  A range that matches none
    of the eight patterns makes [get_first_line_range] raise
    [ConfigValidationError], and the function raises nothing else and in no
    other case.  Matching none of the patterns is having none of the eight
    forms of [a1_shape], with or without a newline at the end;
    ["not a range"] is such a range. *)
Theorem get_first_line_range_invalid :
  (∀ c r, Cfg.range c = Some r → no_shape r →
     get_first_line_range c = Raise (ConfigValidationError "Invalid A1 notation for range"))
  ∧ (∀ c e, get_first_line_range c = Raise e →
       e = ConfigValidationError "Invalid A1 notation for range"
       ∧ ∃ r, Cfg.range c = Some r ∧ no_shape r)
  ∧ (∀ r, no_shape r ↔ ¬ ∃ r' gs, chomped r r' ∧ a1_shape r' gs)
  ∧ no_shape "not a range"
  ∧ get_first_line_range (range_cfg (Some "not a range"))
    = Raise (ConfigValidationError "Invalid A1 notation for range").
Proof.
  split_and!.
  - intros c r Hc Hn%range_match_None. unfold get_first_line_range. by rewrite Hc, Hn.
  - intros c e. unfold get_first_line_range.
    destruct (Cfg.range c) as [r|] eqn:Hc; [|done].
    destruct (range_match r) as [gs|] eqn:Hm.
    + destruct (range_match_four _ _ Hm) as (sc & sr & ec & er & ->). done.
    + intros [= <-]. split; [done|]. exists r. split; [done|]. by apply range_match_None.
  - apply no_shape_grammar.
  - by apply range_match_None.
  - done.
Qed.

Lemma get_first_line_range_invalid_witness :
  Cfg.range (range_cfg (Some "A1:B2:C3")) = Some "A1:B2:C3"
  ∧ no_shape "A1:B2:C3"
  ∧ get_first_line_range (range_cfg (Some "A1:B2:C3"))
    = Raise (ConfigValidationError "Invalid A1 notation for range").
Proof.
  assert (no_shape "A1:B2:C3") as Hno by (apply range_match_None; reflexivity).
  split; [reflexivity|]. split; [exact Hno|].
  exact (proj1 get_first_line_range_invalid
           (range_cfg (Some "A1:B2:C3")) "A1:B2:C3" eq_refl Hno).
Defined.

(** C6: the code breaks the claim.  The range made of [A5] and one newline
    has none of the eight shapes, yet [get_first_line_range] does not raise
    on it: the patterns end in [$], which lets one final newline through
    where the end of the string was meant.  The answer is ["A5:A5"], and the
    [path] of a stream with that range carries the newline on. *)
Theorem get_first_line_range_trailing_newline :
  (∀ gs, ¬ a1_shape ("A5" ++ ["010"%char]) gs)
  ∧ get_first_line_range (range_cfg (Some ("A5" ++ ["010"%char]))) = Ok "A5:A5"
  ∧ (∀ e, get_first_line_range (range_cfg (Some ("A5" ++ ["010"%char]))) ≠ Raise e)
  ∧ path {| name := "s"; schema := []; child_sheet_name := "Sheet1"; primary_keys := [];
            stream_config :=
              Cfg.Make (Some "id") None None None (Some ("A5" ++ ["010"%char])) |}
    = Ok ("/id/values/Sheet1!A5" ++ ["010"%char]).
Proof.
  split_and!; [|reflexivity|discriminate|reflexivity].
  intros gs Hs.
  assert (first_shape (("A5" ++ ["010"%char]) ++ ["010"%char]) gs) as Hf.
  { apply first_shape_grammar. exists ("A5" ++ ["010"%char]). split; [by right | done]. }
  apply range_match_Some in Hf. discriminate Hf.
Qed.

(** ** Dictionaries and [get_schema] *)

Section dict_lemmas.
Context {V : Type}.
Implicit Types (d : list (str * V)) (k : str) (v : V).

Lemma get_set k k' v d :
  Dict.get k (Dict.set k' v d) = if decide (k = k') then Some v else Dict.get k d.
Proof.
  induction d as [|[k0 v0] d IH]; simpl.
  - done.
  - destruct (decide (k' = k0)) as [->|Hne]; simpl.
    + by destruct (decide (k = k0)).
    + destruct (decide (k = k0)) as [->|]; [by rewrite decide_False|done].
Qed.

Lemma keys_cons k v d : Dict.keys ((k, v) :: d) = k :: Dict.keys d.
Proof. done. Qed.

Lemma keys_set k v d :
  Dict.keys (Dict.set k v d)
  = if decide (k ∈ Dict.keys d) then Dict.keys d else Dict.keys d ++ [k].
Proof.
  induction d as [|[k0 v0] d IH]; cbn [Dict.set].
  - rewrite decide_False; [done | by intros ?%elem_of_nil].
  - destruct (decide (k = k0)) as [->|Hne]; rewrite !keys_cons.
    + rewrite decide_True; [done | left].
    + rewrite IH. destruct (decide (k ∈ Dict.keys d)) as [Hin|Hin].
      * rewrite decide_True; [done | by right].
      * rewrite decide_False; [done|]. rewrite elem_of_cons. tauto.
Qed.

Lemma get_is_Some k d : is_Some (Dict.get k d) ↔ k ∈ Dict.keys d.
Proof.
  unfold Dict.keys. induction d as [|[k0 v0] d IH]; simpl.
  - rewrite elem_of_nil. split; [by intros [? ?] | done].
  - rewrite elem_of_cons. destruct (decide (k = k0)).
    + split; [by left | by intros; eexists].
    + rewrite IH. tauto.
Qed.

Lemma get_app k d1 d2 :
  Dict.get k (d1 ++ d2)
  = match Dict.get k d1 with Some v => Some v | None => Dict.get k d2 end.
Proof.
  induction d1 as [|[k0 v0] d1 IH]; simpl; [done|]. by destruct (decide (k = k0)).
Qed.

Lemma get_None k d : Dict.get k d = None ↔ k ∉ Dict.keys d.
Proof. rewrite <- get_is_Some, eq_None_not_Some. done. Qed.

Lemma get_fold k (l : list (str * V)) d :
  Dict.get k (fold_left (λ d p, Dict.set p.1 p.2 d) l d)
  = match Dict.get k (reverse l) with Some v => Some v | None => Dict.get k d end.
Proof.
  revert d. induction l as [|[k0 v0] l IH]; intros d; simpl; [done|].
  rewrite IH, reverse_cons, get_app, get_set. simpl.
  destruct (Dict.get k (reverse l)); [done|]. by destruct (decide (k = k0)).
Qed.

(** [dict(pairs)[k]] is the value of the last pair with key [k]. *)
Lemma get_of_pairs k (l : list (str * V)) :
  Dict.get k (Dict.of_pairs l) = Dict.get k (reverse l).
Proof. unfold Dict.of_pairs. rewrite get_fold. by destruct (Dict.get k (reverse l)). Qed.

Lemma elem_of_keys_of_pairs k (l : list (str * V)) :
  k ∈ Dict.keys (Dict.of_pairs l) ↔ k ∈ l.*1.
Proof.
  rewrite <- get_is_Some, get_of_pairs, get_is_Some. unfold Dict.keys.
  by rewrite fmap_reverse, elem_of_reverse.
Qed.

Lemma get_of_pairs_last k v (l1 l2 : list (str * V)) :
  k ∉ l2.*1 → Dict.get k (Dict.of_pairs (l1 ++ (k, v) :: l2)) = Some v.
Proof.
  intros Hk. rewrite get_of_pairs, reverse_app, reverse_cons, get_app, get_app.
  assert (Dict.get k (reverse l2) = None) as ->.
  { apply get_None. unfold Dict.keys. by rewrite fmap_reverse, elem_of_reverse. }
  simpl. by rewrite decide_True.
Qed.

End dict_lemmas.

Lemma filter_all {A} (P : A → Prop) `{∀ x, Decision (P x)} (l : list A) :
  (∀ x, x ∈ l → P x) → filter P l = l.
Proof.
  induction l as [|x l IH]; intros HP; [done|].
  rewrite filter_cons_True by (apply HP; left). f_equal. apply IH.
  intros y Hy. apply HP. by right.
Qed.

Lemma first_occurrences_NoDup l : NoDup l → first_occurrences l = l.
Proof.
  induction 1 as [|x l Hx _ IH]; simpl; [done|]. rewrite IH. f_equal.
  apply filter_all. intros y Hy ->. done.
Qed.

Lemma elem_of_first_occurrences x l : x ∈ first_occurrences l ↔ x ∈ l.
Proof.
  induction l as [|y l IH]; simpl; [done|].
  rewrite !elem_of_cons, list_elem_of_filter, IH.
  destruct (decide (x = y)); [by split; left | tauto].
Qed.

Lemma NoDup_first_occurrences l : NoDup (first_occurrences l).
Proof.
  induction l as [|x l IH]; simpl; [constructor|]. apply NoDup_cons. split.
  - rewrite list_elem_of_filter. by intros [? _].
  - by apply NoDup_filter.
Qed.

Lemma keys_schema_fold (headings : list str) (schema : list (str * json_type)) :
  Dict.keys (fold_left schema_step headings schema)
  = Dict.keys schema
    ++ filter (λ k, k ∉ Dict.keys schema)
         (first_occurrences (normalize <$> filter (λ h, h ≠ []) headings)).
Proof.
  revert schema. induction headings as [|h hs IH]; intros schema.
  - simpl. by rewrite app_nil_r.
  - cbn [fold_left]. rewrite IH. destruct h as [|c h].
    + change (schema_step schema []) with schema.
      by rewrite filter_cons_False by (intros Hne; by apply Hne).
    + change (schema_step schema (c :: h))
        with (Dict.set (normalize (c :: h)) StringType schema).
      rewrite filter_cons_True by done. cbn [fmap list_fmap first_occurrences].
      rewrite keys_set.
      set (k := normalize (c :: h)).
      destruct (decide (k ∈ Dict.keys schema)) as [Hin|Hin].
      * rewrite filter_cons_False by tauto. f_equal.
        rewrite list_filter_filter. apply list_filter_iff. intros y. split.
        -- intros Hy. split; [done|]. by intros ->.
        -- by intros [? ?].
      * rewrite filter_cons_True by done. rewrite <- app_assoc. simpl. do 2 f_equal.
        rewrite list_filter_filter. apply list_filter_iff. intros y.
        rewrite elem_of_app, list_elem_of_singleton. split.
        -- intros Hy. split; intros ?; apply Hy; [by left | by right].
        -- intros [? ?] [?|?]; done.
Qed.

(** C2, as amended.  [get_schema] skips the empty header cells, and only
    those: a whitespace-only cell is kept and yields the field whose name is
    the empty string.  The field names are the normalised names of the
    non-empty cells in column order, a name that repeats being listed once,
    where it first occurs (so the names are those cells' names exactly when
    these do not repeat); every field is string-typed.  In particular the
    header [["First Name"; "  Last  Name"; ""; "Age"]] yields the fields
    [First_Name], [Last_Name], [Age] in that order. *)
Theorem get_schema_fields :
  (∀ body headings data,
     json_values body = Some (headings :: data) →
     ∃ schema,
       get_schema body = Ok schema
       ∧ Dict.keys schema
         = first_occurrences (normalize <$> filter (λ h, h ≠ []) headings)
       ∧ Forall (λ p, p.2 = StringType) schema
       ∧ (NoDup (normalize <$> filter (λ h, h ≠ []) headings) →
          Dict.keys schema = normalize <$> filter (λ h, h ≠ []) headings))
  ∧ get_schema (sheet_values [["First Name"; "  Last  Name"; ""; "Age"]])
    = Ok [("First_Name", StringType); ("Last_Name", StringType); ("Age", StringType)].
Proof.
  split; [|done]. intros body headings data Hv.
  unfold get_schema, unpack_values. rewrite Hv. step.
  eexists. split; [reflexivity|].
  pose proof (keys_schema_fold headings []) as Hk. unfold schema_step in Hk.
  rewrite Hk. cbn [Dict.keys fmap list_fmap app].
  rewrite filter_all by (intros x _; apply not_elem_of_nil).
  split_and!; [done | | by intros ?%first_occurrences_NoDup].
  apply Forall_forall. by intros [k []] _.
Qed.

Lemma get_schema_fields_witness :
  json_values (sheet_values [["Name"; ""; "Name "; " "]; ["x"]])
  = Some (["Name"; ""; "Name "; " "] :: [["x"]])
  ∧ ∃ schema,
      get_schema (sheet_values [["Name"; ""; "Name "; " "]; ["x"]]) = Ok schema
      ∧ Dict.keys schema
        = first_occurrences
            (normalize <$> filter (λ h, h ≠ []) ["Name"; ""; "Name "; " "]).
Proof.
  split; [reflexivity|].
  destruct (proj1 get_schema_fields
              (sheet_values [["Name"; ""; "Name "; " "]; ["x"]])
              ["Name"; ""; "Name "; " "] [["x"]] eq_refl)
    as (schema & Hs & Hk & _).
  exists schema. split; [exact Hs | exact Hk].
Defined.

(** C2 as stated fails: the blank cell [" "] is not skipped, it yields a
    field named by the empty string. *)
Lemma get_schema_blank_header :
  get_schema (sheet_values [[" "; "Age"]]) = Ok [("", StringType); ("Age", StringType)]
  ∧ get_schema (sheet_values [[" "; "Age"]]) ≠ Ok [("Age", StringType)].
Proof. split; [reflexivity | discriminate]. Qed.

(** ** [parse_response] *)

Lemma zip_longest_cons {A B C} (a : A) (b : B) l1 l2 (l3 : list C) :
  zip_longest (a :: l1) (b :: l2) l3
  = (Some a, Some b, head l3) :: zip_longest l1 l2 (tail l3).
Proof.
  unfold zip_longest.
  assert (length (a :: l1) `max` (length (b :: l2) `max` length l3)
          = S (length l1 `max` (length l2 `max` length (tail l3)))) as ->.
  { destruct l3; simpl; lia. }
  cbn [seq fmap list_fmap]. f_equal; [by destruct l3|].
  rewrite <- fmap_S_seq, <- list_fmap_compose. apply list_fmap_ext.
  intros i x _. simpl. by rewrite lookup_tail.
Qed.

Lemma zip_longest_nil {A B C} (l3 : list C) :
  zip_longest (@nil A) (@nil B) l3 = (λ v, (None, None, Some v)) <$> l3.
Proof.
  unfold zip_longest. simpl. apply list_eq. intros i.
  rewrite !list_lookup_fmap. destruct (decide (i < length l3)) as [Hi|Hi].
  - rewrite lookup_seq_lt by done. simpl.
    destruct (lookup_lt_is_Some_2 l3 i Hi) as [v ->]. done.
  - rewrite lookup_seq_ge by lia. by rewrite (proj2 (lookup_ge_None l3 i)) by lia.
Qed.

Lemma or_else_id (v : option str) : or_else v id [] = default [] v.
Proof. by destruct v as [[|c s]|]. Qed.

Lemma row_pairs_nil values : row_pairs [] [] values = Ok [].
Proof.
  unfold row_pairs. rewrite zip_longest_nil.
  induction values as [|v vs IH]; [done|]. by cbn.
Qed.

Lemma row_pairs_mask selected headings values :
  row_pairs (mask headings selected) headings values
  = Ok (columns selected headings values).
Proof.
  revert values. induction headings as [|h hs IH]; intros values.
  - apply row_pairs_nil.
  - unfold row_pairs, mask in *. cbn [fmap list_fmap]. rewrite zip_longest_cons.
    cbn [comprehension fst snd columns]. rewrite or_else_id.
    destruct (truthy h && bool_decide (normalize h ∈ selected)) eqn:E.
    + rewrite bool_decide_eq_true_2 by done. step.
      by rewrite IH.
    + rewrite bool_decide_eq_false_2 by (by intros [=]). by rewrite IH.
Qed.

Lemma for_loop_snoc {A B C} (f : A → result B) (g : A → B) (h : B → C) l acc :
  (∀ x, f x = Ok (g x)) →
  for_loop (λ acc x, y ← f x; Ok (acc ++ [h y])) l acc = Ok (acc ++ (h ∘ g <$> l)).
Proof.
  intros Hf. revert acc. induction l as [|x l IH]; intros acc; simpl.
  - by rewrite app_nil_r.
  - rewrite Hf. step. rewrite IH. by rewrite <- app_assoc.
Qed.

Lemma parse_response_eq metadata selected body headings data :
  json_values body = Some (headings :: data) →
  get_selected_columns metadata = Ok selected →
  parse_response metadata body
  = Ok ((λ values,
          Dict.of_pairs
            (columns (selected_columns_set selected (normalize <$> headings))
                     headings values)) <$> data).
Proof.
  intros Hv Hs. unfold parse_response, unpack_values. rewrite Hv.
  step. rewrite Hs. step.
  erewrite for_loop_snoc by (intros; apply row_pairs_mask). done.
Qed.

Lemma elem_of_selected_columns_set selected headings k :
  k ∈ selected_columns_set selected (normalize <$> headings)
  ↔ in_selection selected headings k.
Proof.
  unfold in_selection, selected_columns_set. destruct selected as [|s l].
  - rewrite decide_True by done. apply elem_of_list_to_set.
  - rewrite decide_False by done. apply elem_of_list_to_set.
Qed.

Lemma included_spec selected headings h :
  truthy h && bool_decide (normalize h ∈ selected_columns_set selected (normalize <$> headings))
  = true
  ↔ included_column selected headings h.
Proof.
  unfold included_column. rewrite andb_true_iff, bool_decide_eq_true, truthy_true.
  by rewrite elem_of_selected_columns_set.
Qed.

Lemma columns_take sel headings values :
  columns sel headings (take (length headings) values) = columns sel headings values.
Proof.
  revert values. induction headings as [|h hs IH]; intros values; [done|].
  destruct values as [|v vs]; [done|]. simpl. by rewrite IH.
Qed.

Lemma columns_app sel hs1 hs2 values :
  columns sel (hs1 ++ hs2) values
  = columns sel hs1 values ++ columns sel hs2 (drop (length hs1) values).
Proof.
  revert values. induction hs1 as [|h hs1 IH]; intros values; [done|].
  cbn [app columns length]. rewrite IH, <- app_assoc. f_equal. f_equal.
  destruct values; simpl; [by rewrite drop_nil | done].
Qed.

Lemma elem_of_columns sel headings values k v :
  (k, v) ∈ columns sel headings values ↔
  ∃ i h, headings !! i = Some h
    ∧ truthy h && bool_decide (normalize h ∈ sel) = true
    ∧ k = normalize h ∧ v = default [] (values !! i).
Proof.
  revert values. induction headings as [|h hs IH]; intros values.
  - simpl. rewrite elem_of_nil. split; [done|]. by intros (i & h & ? & _).
  - cbn [columns]. rewrite elem_of_app, IH. split.
    + intros [Hin|(i & h' & Hi & Hinc & -> & ->)].
      * destruct (truthy h && _) eqn:E; [|by apply elem_of_nil in Hin].
        apply list_elem_of_singleton in Hin as [= -> ->].
        exists 0, h. by rewrite head_lookup.
      * exists (S i), h'. by rewrite lookup_tail.
    + intros ([|i] & h' & Hi & Hinc & -> & ->); simpl in Hi.
      * simplify_eq. left. rewrite Hinc. rewrite head_lookup. left.
      * right. exists i, h'. by rewrite lookup_tail.
Qed.

Lemma elem_of_columns_keys sel headings values k :
  k ∈ (columns sel headings values).*1 ↔
  ∃ i h, headings !! i = Some h
    ∧ truthy h && bool_decide (normalize h ∈ sel) = true ∧ k = normalize h.
Proof.
  rewrite list_elem_of_fmap. split.
  - intros ([k' v] & -> & Hin). apply elem_of_columns in Hin as (i & h & ? & ? & ? & _).
    eauto.
  - intros (i & h & Hi & Hinc & ->). eexists (_, _). split; [done|].
    apply elem_of_columns. eauto 10.
Qed.

Lemma columns_empty_row sel headings :
  columns sel headings []
  = (λ h, (normalize h, [])) <$>
      filter (λ h, truthy h && bool_decide (normalize h ∈ sel) = true) headings.
Proof.
  induction headings as [|h hs IH]; [done|]. cbn [columns tail head].
  rewrite IH. destruct (truthy h && _) eqn:E.
  - by rewrite filter_cons_True by done.
  - rewrite filter_cons_False; [done|]. by rewrite E.
Qed.

Lemma get_columns sel headings values i h :
  headings !! i = Some h →
  truthy h && bool_decide (normalize h ∈ sel) = true →
  (∀ i' h', i < i' → headings !! i' = Some h' → h' ≠ [] → normalize h' ≠ normalize h) →
  Dict.get (normalize h) (Dict.of_pairs (columns sel headings values))
  = Some (default [] (values !! i)).
Proof.
  intros Hi Hinc Hlast.
  rewrite <- (take_drop_middle headings i h Hi), columns_app.
  cbn [columns]. rewrite Hinc. cbn [app].
  assert (length (take i headings) = i) as Hlen.
  { apply length_take_le. apply lookup_lt_Some in Hi. lia. }
  rewrite Hlen. rewrite get_of_pairs_last.
  - by rewrite head_lookup, lookup_drop, Nat.add_0_r.
  - intros (i' & h' & Hi' & Hinc' & Heq)%elem_of_columns_keys.
    rewrite lookup_drop in Hi'.
    apply (Hlast (S i + i') h'); [lia | done | | done].
    apply andb_true_iff in Hinc' as [Ht _]. by apply truthy_true.
Qed.

(** C5, amended.  [parse_response] yields one record per row.  The keys of
    a record are exactly the normalised names of the columns whose header
    cell is not empty and whose normalised name is in the effective
    selection (the given selection if it is not empty, otherwise all
    normalised header names).  A record is keyed by name, so columns that
    share a normalised name share one key: the value under a name is the
    cell of the last kept column of that name, the empty string when the row
    ends before it.  With headers [A], [B], [C] and the row [1], [2]: no
    selection yields A=1, B=2, C=empty, and the selection [B] yields B=2
    only. *)
Theorem parse_response_columns :
  (∀ metadata selected body headings data,
     json_values body = Some (headings :: data) →
     get_selected_columns metadata = Ok selected →
     ∃ rows,
       parse_response metadata body = Ok rows
       ∧ length rows = length data
       ∧ ∀ j values, data !! j = Some values →
           ∃ record,
             rows !! j = Some record
             ∧ (∀ k, k ∈ Dict.keys record ↔
                  ∃ i h, headings !! i = Some h
                    ∧ included_column selected headings h ∧ k = normalize h)
             ∧ (∀ i h,
                  headings !! i = Some h →
                  included_column selected headings h →
                  (∀ i' h', i < i' → headings !! i' = Some h' → h' ≠ [] →
                            normalize h' ≠ normalize h) →
                  Dict.get (normalize h) record = Some (default [] (values !! i))))
  ∧ parse_response [] (sheet_values [["A"; "B"; "C"]; ["1"; "2"]])
    = Ok [[("A", "1"); ("B", "2"); ("C", "")]]
  ∧ parse_response (select_only ["A"; "B"; "C"] ["B"])
                   (sheet_values [["A"; "B"; "C"]; ["1"; "2"]])
    = Ok [[("B", "2")]].
Proof.
  split_and!; [|by vm_compute..].
  intros metadata selected body headings data Hv Hs.
  rewrite (parse_response_eq _ _ _ _ _ Hv Hs). eexists. split; [reflexivity|].
  split; [by rewrite length_fmap|].
  intros j values Hj. eexists. split; [by rewrite list_lookup_fmap, Hj|]. split.
  - intros k. rewrite elem_of_keys_of_pairs, elem_of_columns_keys.
    by setoid_rewrite included_spec.
  - intros i h Hi Hinc Hlast. apply get_columns; [done | by apply included_spec | done].
Qed.

Lemma parse_response_columns_witness :
  json_values (sheet_values [["A"; "B"]; ["1"]; ["2"; "3"; "4"]])
  = Some (["A"; "B"] :: [["1"]; ["2"; "3"; "4"]])
  ∧ get_selected_columns (select_only ["A"; "B"] ["B"]) = Ok ["B"]
  ∧ ∃ rows,
      parse_response (select_only ["A"; "B"] ["B"])
                     (sheet_values [["A"; "B"]; ["1"]; ["2"; "3"; "4"]]) = Ok rows
      ∧ length rows = 2.
Proof.
  split; [reflexivity|]. split; [vm_compute; reflexivity|].
  destruct (proj1 parse_response_columns (select_only ["A"; "B"] ["B"]) ["B"]
              (sheet_values [["A"; "B"]; ["1"]; ["2"; "3"; "4"]])
              ["A"; "B"] [["1"]; ["2"; "3"; "4"]])
    as (rows & Hrows & Hlen & _).
  - reflexivity.
  - vm_compute. reflexivity.
  - exists rows. split; [exact Hrows | exact Hlen].
Defined.

(** C5 as it is stated fails where two kept columns share a normalised
    name: under the headers [Name], [x] and [Name ] the first column is
    kept, yet the record of the row [1], [2], [3] holds its cell under no
    key; the name they share carries the cell of the third column. *)
Lemma parse_response_repeated_name :
  parse_response [] (sheet_values [["Name"; "x"; "Name "]; ["1"; "2"; "3"]])
  = Ok [[("Name", "3"); ("x", "2")]]
  ∧ included_column [] ["Name"; "x"; "Name "] "Name"
  ∧ Dict.get (normalize "Name") [("Name", "3"); ("x", "2")] = Some "3"
  ∧ ∀ k, Dict.get k [("Name", "3"); ("x", "2")] ≠ Some "1".
Proof.
  split_and!.
  - by vm_compute.
  - split; [discriminate|]. unfold in_selection. rewrite decide_True by done.
    apply (bool_decide_unpack _). reflexivity.
  - reflexivity.
  - intros k. simpl. repeat case_decide; discriminate.
Qed.

Lemma get_Forall {V} (P : V → Prop) k v (d : list (str * V)) :
  Forall (λ p, P p.2) d → Dict.get k d = Some v → P v.
Proof.
  induction 1 as [|[k' v'] l Hp _ IH]; simpl; [done|].
  destruct (decide (k = k')); [by intros [= <-] | done].
Qed.

(** C1, as amended.  A row with no cell values is not omitted: at its place
    [parse_response] yields one record, whose keys are the normalised names
    of the included columns, each with the empty string as its value.  The
    record has no keys only when no column is included. *)
Theorem parse_response_empty_row
    metadata selected body headings data (j : nat) :
  json_values body = Some (headings :: data) →
  get_selected_columns metadata = Ok selected →
  data !! j = Some [] →
  ∃ rows record,
    parse_response metadata body = Ok rows
    ∧ length rows = length data
    ∧ rows !! j = Some record
    ∧ (∀ k, k ∈ Dict.keys record ↔
         ∃ h, h ∈ headings ∧ included_column selected headings h ∧ k = normalize h)
    ∧ (∀ k v, Dict.get k record = Some v → v = [])
    ∧ (record = [] ↔ ¬ ∃ h, h ∈ headings ∧ included_column selected headings h).
Proof.
  intros Hv Hs Hj. rewrite (parse_response_eq _ _ _ _ _ Hv Hs).
  set (sel := selected_columns_set selected (normalize <$> headings)).
  exists ((λ values, Dict.of_pairs (columns sel headings values)) <$> data).
  exists (Dict.of_pairs (columns sel headings [])).
  split; [reflexivity|]. split; [by rewrite length_fmap|].
  split; [by rewrite list_lookup_fmap, Hj|].
  remember (Dict.of_pairs (columns sel headings [])) as record eqn:Hrecord.
  assert (∀ k, k ∈ Dict.keys record ↔
            ∃ h, h ∈ headings ∧ included_column selected headings h ∧ k = normalize h)
    as Hkeys.
  { intros k. rewrite Hrecord, elem_of_keys_of_pairs, elem_of_columns_keys. unfold sel.
    setoid_rewrite included_spec. setoid_rewrite list_elem_of_lookup.
    split; [intros (i & h & ? & ? & ?) | intros (h & [i ?] & ? & ?)]; eauto 10. }
  split_and!.
  - exact Hkeys.
  - intros k v Hget. rewrite Hrecord, get_of_pairs in Hget.
    assert (Forall (λ p, p.2 = []) (reverse (columns sel headings []))) as Hall.
    { rewrite columns_empty_row. apply Forall_reverse, Forall_fmap, Forall_forall.
      by intros ??. }
    exact (get_Forall (λ v, v = []) _ _ _ Hall Hget).
  - clear Hrecord. split.
    + intros -> (h & Hh & Hinc). apply (not_elem_of_nil (normalize h)).
      apply Hkeys. eauto.
    + intros Hno. destruct record as [|[k v] d]; [done|].
      exfalso. apply Hno. destruct (proj1 (Hkeys k)) as (h & ? & ? & _); [left|]. eauto.
Qed.

Lemma parse_response_empty_row_witness :
  json_values (sheet_values [["A"; ""; "B c"]; ["1"]; []])
  = Some (["A"; ""; "B c"] :: [["1"]; []])
  ∧ get_selected_columns [] = Ok []
  ∧ [["1"]; []] !! 1 = Some ([] : list str)
  ∧ ∃ rows record,
      parse_response [] (sheet_values [["A"; ""; "B c"]; ["1"]; []]) = Ok rows
      ∧ rows !! 1 = Some record
      ∧ ∀ k v, Dict.get k record = Some v → v = [].
Proof.
  split; [reflexivity|]. split; [reflexivity|]. split; [reflexivity|].
  destruct (parse_response_empty_row [] [] (sheet_values [["A"; ""; "B c"]; ["1"]; []])
              ["A"; ""; "B c"] [["1"]; []] 1)
    as (rows & record & Hrows & _ & Hrec & _ & Hval & _).
  - reflexivity.
  - reflexivity.
  - reflexivity.
  - exists rows, record. split; [exact Hrows|]. split; [exact Hrec | exact Hval].
Defined.

(** C1 as stated fails: under the headers [A] and [B] the empty row yields
    A=empty, B=empty, not the mapping without keys. *)
Lemma parse_response_empty_row_keeps_columns :
  parse_response [] (sheet_values [["A"; "B"]; []]) = Ok [[("A", ""); ("B", "")]]
  ∧ parse_response [] (sheet_values [["A"; "B"]; []]) ≠ Ok [[]].
Proof. split; [by vm_compute | discriminate]. Qed.

(** C9.  A row longer than the header row loses its extra trailing values
    and nothing else: [parse_response] raises nothing and yields, for the
    whole response, exactly what it yields when that row is cut to the
    header's length. *)
Theorem parse_response_long_row
    metadata selected body body' headings before values after :
  json_values body = Some (headings :: before ++ values :: after) →
  json_values body' = Some (headings :: before ++ take (length headings) values :: after) →
  get_selected_columns metadata = Ok selected →
  length headings < length values →
  ∃ rows,
    parse_response metadata body = Ok rows
    ∧ parse_response metadata body' = Ok rows
    ∧ length rows = length (before ++ values :: after).
Proof.
  intros Hv Hv' Hs _.
  rewrite (parse_response_eq _ _ _ _ _ Hv Hs), (parse_response_eq _ _ _ _ _ Hv' Hs).
  eexists. split; [reflexivity|]. split; [|by rewrite length_fmap].
  rewrite !fmap_app, !fmap_cons. by rewrite columns_take.
Qed.

Lemma parse_response_long_row_witness :
  json_values (sheet_values [["A"; "B"]; ["1"; "2"; "3"]])
  = Some (["A"; "B"] :: [] ++ ["1"; "2"; "3"] :: [])
  ∧ json_values (sheet_values [["A"; "B"]; ["1"; "2"]])
    = Some (["A"; "B"] :: [] ++ take (length ["A"; "B"]) ["1"; "2"; "3"] :: [])
  ∧ get_selected_columns [] = Ok []
  ∧ length ["A"; "B"] < length ["1"; "2"; "3"]
  ∧ ∃ rows,
      parse_response [] (sheet_values [["A"; "B"]; ["1"; "2"; "3"]]) = Ok rows
      ∧ parse_response [] (sheet_values [["A"; "B"]; ["1"; "2"]]) = Ok rows.
Proof.
  split; [reflexivity|]. split; [reflexivity|]. split; [reflexivity|].
  split; [simpl; lia|].
  destruct (parse_response_long_row [] []
              (sheet_values [["A"; "B"]; ["1"; "2"; "3"]])
              (sheet_values [["A"; "B"]; ["1"; "2"]])
              ["A"; "B"] [] ["1"; "2"; "3"] [])
    as (rows & H1 & H2 & _).
  - reflexivity.
  - reflexivity.
  - reflexivity.
  - simpl. lia.
  - exists rows. split; [exact H1 | exact H2].
Defined.

(** ** [discover_streams] *)

Section discover.
Variable request : str → result Json.

Lemma or_else_given {B} (o : option str) (k : str → B) (b : B) :
  given o → ∃ s, o = Some s ∧ s ≠ [] ∧ or_else o k b = k s.
Proof. intros (s & -> & Hs). exists s. by destruct s. Qed.

Lemma or_else_not_given {B} (o : option str) (k : str → B) (b : B) :
  o = None ∨ o = Some [] → or_else o k b = b.
Proof. by intros [-> | ->]. Qed.

Lemma given_dec (o : option str) : given o ∨ (o = None ∨ o = Some []).
Proof.
  destruct o as [[|c s]|]; [right; by right | left | right; by left].
  by exists (c :: s).
Qed.

Lemma discover_stream_acc streams c :
  discover_stream request streams c
  = new ← discover_stream request [] c; Ok (streams ++ new).
Proof.
  unfold discover_stream.
  destruct (name_or_title request c) as [[n|]|e]; [|done..]. step.
  destruct (get_sheet_data request c) as [data|e]; [|done]. step.
  destruct (get_schema data) as [sch|e]; [|done]. step.
  destruct (or_else _ _ _) as [child|e]; [|done]. step.
  destruct (truthy _); cbn [mbind result_bind app]; [done | by rewrite app_nil_r].
Qed.

Lemma for_loop_discover l acc :
  for_loop (discover_stream request) l acc
  = news ← for_loop (discover_stream request) l []; Ok (acc ++ news).
Proof.
  revert acc. induction l as [|c l IH]; intros acc; cbn [for_loop].
  - cbn. by rewrite app_nil_r.
  - rewrite (discover_stream_acc acc).
    destruct (discover_stream request [] c) as [new|e]; [|done].
    cbn [mbind result_bind app]. rewrite (IH (acc ++ new)), (IH new).
    destruct (for_loop _ l []) as [news|e]; [|done].
    step. by rewrite app_assoc.
Qed.

Lemma for_loop_app {A S} (body : S → A → result S) l1 l2 s :
  for_loop body (l1 ++ l2) s = s' ← for_loop body l1 s; for_loop body l2 s'.
Proof.
  revert s. induction l1 as [|x l1 IH]; intros s; [done|]. cbn [app for_loop].
  destruct (body s x); [apply IH | done].
Qed.

Lemma resolved_stream c :
  resolved request c →
  ∃ st,
    discover_stream request [] c
    = Ok (if decide (stream_name_of request c ≠ []) then [st] else [])
    ∧ stream_config st = c
    ∧ name st = stream_name_of request c.
Proof.
  intros (id & first_line & data & headings & rows & Hid & Hfl & Hreq & Hv & Hname & Hchild).
  assert (∃ n, name_or_title request c = Ok (Some n)) as [n Hn].
  { unfold name_or_title. destruct Hname as [Hg|(meta & title & Hm & Ht)].
    - destruct (or_else_given _ (λ n, Ok (Some n)) (get_sheet_name request c) Hg)
        as (s & _ & _ & ->). eauto.
    - destruct (given_dec (Cfg.output_name c)) as [Hg|Hng].
      + destruct (or_else_given _ (λ n, Ok (Some n)) (get_sheet_name request c) Hg)
          as (s & _ & _ & ->). eauto.
      + rewrite (or_else_not_given _ _ _ Hng). unfold get_sheet_name.
        rewrite Hid. step. rewrite Hm.
        step. rewrite Ht. eauto. }
  assert (get_sheet_data request c = Ok data) as Hdata.
  { unfold get_sheet_data. rewrite Hid, Hfl. step. exact Hreq. }
  assert (∃ sch, get_schema data = Ok sch) as [sch Hsch].
  { unfold get_schema, unpack_values. rewrite Hv. step. eauto. }
  assert (∃ child, or_else (Cfg.child_sheet_name c) Ok
                     (get_first_visible_child_sheet_name data) = Ok child)
    as [child Hch].
  { destruct Hchild as [Hg|[rng Hr]].
    - destruct (or_else_given _ Ok (get_first_visible_child_sheet_name data) Hg)
        as (s & _ & _ & ->). eauto.
    - destruct (given_dec (Cfg.child_sheet_name c)) as [Hg|Hng].
      + destruct (or_else_given _ Ok (get_first_visible_child_sheet_name data) Hg)
          as (s & _ & _ & ->). eauto.
      + rewrite (or_else_not_given _ _ _ Hng). unfold get_first_visible_child_sheet_name.
        rewrite Hr. eauto. }
  unfold stream_name_of, discover_stream. rewrite Hn, Hdata. step.
  rewrite Hsch. step. rewrite Hch. cbn [mbind result_bind app].
  eexists {| name := replace " " "_" n; stream_config := c |}.
  split; [|done]. destruct (replace " " "_" n) eqn:E; cbn [truthy].
  - by rewrite decide_False by (intros Hne; by apply Hne).
  - by rewrite decide_True.
Qed.

Lemma discover_resolved l :
  Forall (resolved request) l →
  ∃ streams,
    for_loop (discover_stream request) l [] = Ok streams
    ∧ stream_config <$> streams = filter (λ c, stream_name_of request c ≠ []) l
    ∧ Forall (λ st, name st = stream_name_of request (stream_config st)
                     ∧ name st ≠ []) streams.
Proof.
  induction 1 as [|c l Hc _ (streams & Hl & Hcfg & Hnames)].
  - exists []. by split_and!.
  - destruct (resolved_stream c Hc) as (st & Hst & Hsc & Hnm).
    cbn [for_loop]. rewrite Hst. step.
    rewrite for_loop_discover, Hl. step.
    eexists. split; [reflexivity|]. case_decide as Hne.
    + rewrite filter_cons_True by done. cbn [app fmap list_fmap]. split.
      * by rewrite Hsc, Hcfg.
      * constructor; [|exact Hnames]. rewrite Hsc. split; [exact Hnm | by rewrite Hnm].
    + rewrite filter_cons_False by (intros Hn; by apply Hn). by split.
Qed.

Lemma replace_underscored s : replace " " "_" s = underscored s.
Proof.
  unfold replace, underscored. induction s as [|c s IH]; [done|].
  cbn [map fmap list_fmap]. by f_equal.
Qed.

Lemma named_inj c n n' : named request c n → named request c n' → n = n'.
Proof.
  intros [s Hs Hne|id meta title Hng Hid Hm Ht] [s' Hs' Hne'|id' meta' title' Hng' Hid' Hm' Ht'].
  - congruence.
  - exfalso. apply Hng'. by exists s.
  - exfalso. apply Hng. by exists s'.
  - congruence.
Qed.

Lemma resolved_named c :
  resolved request c → named request c (stream_name_of request c).
Proof.
  intros (id & first_line & data & headings & rows & Hid & _ & _ & _ & Hname & _).
  unfold stream_name_of, name_or_title.
  destruct (given_dec (Cfg.output_name c)) as [Hg|Hng].
  - destruct (or_else_given _ (λ n, Ok (Some n)) (get_sheet_name request c) Hg)
      as (s & Hs & Hne & ->).
    rewrite replace_underscored. by apply named_output.
  - rewrite (or_else_not_given _ _ _ Hng).
    assert (¬ given (Cfg.output_name c)) as Hno.
    { intros (s & Hs & Hne). destruct Hng as [E|E]; rewrite E in Hs; by simplify_eq. }
    destruct Hname as [Hg|(meta & title & Hm & Ht)]; [done|].
    unfold get_sheet_name. rewrite Hid. step. rewrite Hm. step. rewrite Ht.
    rewrite replace_underscored. by eapply named_title.
Qed.

Lemma discover_named l :
  Forall (resolved request) l →
  ∃ names streams,
    Forall2 (named request) l names
    ∧ for_loop (discover_stream request) l [] = Ok streams
    ∧ entry_and_name <$> streams = with_name (zip l names).
Proof.
  induction 1 as [|c l Hc _ (names & streams & Hn & Hl & Hpairs)].
  - exists [], []. split_and!; [constructor | done | done].
  - destruct (resolved_stream c Hc) as (st & Hst & Hsc & Hnm).
    exists (stream_name_of request c :: names). eexists. split_and!.
    + constructor; [by apply resolved_named | done].
    + cbn [for_loop]. rewrite Hst. step. rewrite for_loop_discover, Hl. step.
      reflexivity.
    + unfold with_name. cbn [zip zip_with]. case_decide as Hne.
      * rewrite filter_cons_True by done. cbn [app fmap list_fmap]. f_equal; [|done].
        unfold entry_and_name. by rewrite Hsc, Hnm.
      * rewrite filter_cons_False by (cbn [snd]; intros Hn'; by apply Hn').
        done.
Qed.
End discover.

(** C7.  When every sheet entry resolves, every entry has a name (its
    output name if it gives one, else the title the remote serves, with
    spaces as underscores), and [discover_streams] returns the streams of
    the entries whose name is not empty, one each, in configuration order,
    each stream carrying its entry and that name.  So it returns one stream
    per entry when no name is empty, two streams for two entries, and an
    entry whose name is empty is left out while the entries before and after
    it are still produced. *)
Theorem discover_streams_one_per_entry (request : str → result Json) (config : TapConfig) :
  Forall (resolved request) (sheet_entries config) →
  ∃ names streams,
    Forall2 (named request) (sheet_entries config) names
    ∧ discover_streams request config = Ok streams
    ∧ entry_and_name <$> streams = with_name (zip (sheet_entries config) names)
    ∧ (Forall (λ n, n ≠ []) names →
       length streams = length (sheet_entries config)
       ∧ stream_config <$> streams = sheet_entries config
       ∧ name <$> streams = names)
    ∧ (∀ c1 c2,
         sheet_entries config = [c1; c2] →
         Forall (λ n, n ≠ []) names →
         ∃ s1 s2, streams = [s1; s2]
                  ∧ stream_config s1 = c1 ∧ named request c1 (name s1)
                  ∧ stream_config s2 = c2 ∧ named request c2 (name s2))
    ∧ (∀ before c after,
         sheet_entries config = before ++ c :: after →
         named request c [] →
         ∃ names1 names2,
           Forall2 (named request) before names1
           ∧ Forall2 (named request) after names2
           ∧ entry_and_name <$> streams
             = with_name (zip before names1) ++ with_name (zip after names2)).
Proof.
  intros Hall. unfold discover_streams.
  destruct (discover_named request _ Hall) as (names & streams & Hn & Hrun & Hpairs).
  exists names, streams.
  assert (Forall (λ n, n ≠ []) names →
          length streams = length (sheet_entries config)
          ∧ stream_config <$> streams = sheet_entries config
          ∧ name <$> streams = names) as Hfull.
  { intros Hne. pose proof (Forall2_length _ _ _ Hn) as Hlen.
    assert (entry_and_name <$> streams = zip (sheet_entries config) names) as E.
    { rewrite Hpairs. apply filter_all. intros [c n] Hin. cbn [snd].
      apply (proj1 (Forall_forall _ _) Hne). apply (elem_of_zip_r _ _ _ _ Hin). }
    split_and!.
    - rewrite <- (length_fmap entry_and_name), E, length_zip. lia.
    - transitivity ((entry_and_name <$> streams).*1).
      + rewrite <- list_fmap_compose. done.
      + rewrite E. apply fst_zip. lia.
    - transitivity ((entry_and_name <$> streams).*2).
      + rewrite <- list_fmap_compose. done.
      + rewrite E. apply snd_zip. lia. }
  split_and!; [done..| |].
  - intros c1 c2 E Hne. destruct (Hfull Hne) as (Hlen & Hcfg & Hnames).
    rewrite E in Hcfg, Hlen, Hn.
    destruct streams as [|s1 [|s2 [|s3 l]]]; simplify_eq/=.
    exists s1, s2. apply Forall2_cons in Hn as [H1 Hn]. apply Forall2_cons in Hn as [H2 _].
    by split_and!.
  - intros before c after E Hc. rewrite E in Hn.
    apply Forall2_app_inv_l in Hn as (names1 & k2 & H1 & H2 & ->).
    apply Forall2_cons_inv_l in H2 as (n & names2 & Hcn & H2 & ->).
    rewrite (named_inj request c n [] Hcn Hc) in Hpairs.
    exists names1, names2. split_and!; [done..|].
    rewrite Hpairs, E. unfold with_name.
    rewrite zip_with_app by (by eapply Forall2_length).
    rewrite filter_app. cbn [zip_with]. by f_equal.
Qed.

Lemma discover_streams_one_per_entry_witness :
  Forall (resolved demo_request)
    (sheet_entries {| sheets := Some [demo_entry "idA"; demo_named "idB" "Second sheet"];
                      top_level := Cfg.Make None None None None None |})
  ∧ discover_streams demo_request
      {| sheets := Some [demo_entry "idA"; demo_named "idB" "Second sheet"];
         top_level := Cfg.Make None None None None None |}
    = Ok [{| name := "Team_list"; schema := [("Name", StringType); ("Age", StringType)];
             child_sheet_name := "Sheet1"; primary_keys := [];
             stream_config := demo_entry "idA" |};
          {| name := "Second_sheet"; schema := [("Id", StringType)];
             child_sheet_name := "Data"; primary_keys := [];
             stream_config := demo_named "idB" "Second sheet" |}]
  ∧ named demo_request (demo_entry "idB") []
  ∧ discover_streams demo_request (demo_config ["idA"; "idB"; "idA"])
    = Ok [{| name := "Team_list"; schema := [("Name", StringType); ("Age", StringType)];
             child_sheet_name := "Sheet1"; primary_keys := [];
             stream_config := demo_entry "idA" |};
          {| name := "Team_list"; schema := [("Name", StringType); ("Age", StringType)];
             child_sheet_name := "Sheet1"; primary_keys := [];
             stream_config := demo_entry "idA" |}]
  ∧ ∃ names streams,
      Forall2 (named demo_request)
        (sheet_entries {| sheets := Some [demo_entry "idA"; demo_named "idB" "Second sheet"];
                          top_level := Cfg.Make None None None None None |})
        names
      ∧ discover_streams demo_request
          {| sheets := Some [demo_entry "idA"; demo_named "idB" "Second sheet"];
             top_level := Cfg.Make None None None None None |}
        = Ok streams
      ∧ entry_and_name <$> streams
        = with_name
            (zip (sheet_entries
                    {| sheets := Some [demo_entry "idA"; demo_named "idB" "Second sheet"];
                       top_level := Cfg.Make None None None None None |})
                 names).
Proof.
  assert (Forall (resolved demo_request)
            (sheet_entries
               {| sheets := Some [demo_entry "idA"; demo_named "idB" "Second sheet"];
                  top_level := Cfg.Make None None None None None |})) as Hall.
  { repeat constructor.
    - exists "idA", "1:1", {| json_title := None; json_values := Some [["Name"; "Age"]];
                              json_range := Some "Sheet1!A1:Z1" |}, ["Name"; "Age"], [].
      split_and!; [reflexivity.. | | ].
      + right. eexists _, _. split; reflexivity.
      + right. eexists. reflexivity.
    - exists "idB", "1:1", {| json_title := None; json_values := Some [["Id"]];
                              json_range := Some "Data!A1:Z1" |}, ["Id"], [].
      split_and!; [reflexivity.. | | ].
      + left. exists "Second sheet". split; [reflexivity | discriminate].
      + right. eexists. reflexivity. }
  split; [exact Hall|]. split; [reflexivity|]. split.
  { apply (named_title demo_request (demo_entry "idB") "idB" (demo_title (Some "")) "").
    - intros (s & Hs & _). discriminate Hs.
    - reflexivity.
    - reflexivity.
    - reflexivity. }
  split; [reflexivity|].
  destruct (discover_streams_one_per_entry demo_request _ Hall)
    as (names & streams & Hn & Hrun & Hpairs & _).
  exists names, streams. split; [exact Hn|]. split; [exact Hrun | exact Hpairs].
Defined.

Lemma replace_nil a b s : replace a b s = [] → s = [].
Proof. by destruct s. Qed.

(** C10.  For an entry that sets no output name and whose metadata response
    has no title, the loop body raises the [AttributeError] of
    [None.replace] whatever the streams so far, so [discover_streams] raises
    instead of skipping the entry (that very exception when the entries
    before it resolve).  And the loop body leaves the list of streams as it
    was, the skip, only when the derived name is the empty string. *)
Theorem discover_streams_missing_title :
  (∀ request config before c after id meta,
     sheet_entries config = before ++ c :: after →
     Cfg.output_name c = None ∨ Cfg.output_name c = Some [] →
     sheet_id_of c = Ok id →
     request (drive_path id) = Ok meta →
     json_title meta = None →
     (∀ streams, discover_stream request streams c = Raise no_replace)
     ∧ (∃ e, discover_streams request config = Raise e)
     ∧ (Forall (resolved request) before →
        discover_streams request config = Raise no_replace))
  ∧ (∀ request streams c,
       discover_stream request streams c = Ok streams →
       name_or_title request c = Ok (Some [])).
Proof.
  split.
  - intros request config before c after id meta E Hout Hid Hreq Htitle.
    assert (∀ streams, discover_stream request streams c = Raise no_replace) as Hc.
    { intros streams. unfold discover_stream, name_or_title.
      rewrite (or_else_not_given _ _ _ Hout). unfold get_sheet_name.
      rewrite Hid. step. rewrite Hreq.
      step. by rewrite Htitle. }
    split; [exact Hc|]. unfold discover_streams. rewrite E, for_loop_app.
    split.
    + destruct (for_loop _ before []) as [s|e]; [|by eexists].
      cbn [mbind result_bind for_loop]. rewrite Hc. by eexists.
    + intros Hall. destruct (discover_resolved request _ Hall) as (s & -> & _).
      cbn [mbind result_bind for_loop]. by rewrite Hc.
  - intros request streams c. unfold discover_stream.
    destruct (name_or_title request c) as [[n|]|e]; [|done..]. step.
    destruct (get_sheet_data request c) as [data|e]; [|done]. step.
    destruct (get_schema data) as [sch|e]; [|done]. step.
    destruct (or_else _ _ _) as [child|e]; [|done]. step.
    destruct (replace " " "_" n) eqn:En; cbn [truthy].
    + apply replace_nil in En as ->. done.
    + intros [= Heq]. apply (f_equal length) in Heq. rewrite length_app in Heq.
      simpl in Heq. lia.
Qed.

Lemma discover_streams_missing_title_witness :
  sheet_entries (demo_config ["idA"; "idC"]) = [demo_entry "idA"] ++ demo_entry "idC" :: []
  ∧ discover_streams demo_request (demo_config ["idA"; "idC"]) = Raise no_replace.
Proof.
  split; [reflexivity|].
  refine (proj2 (proj2 (proj1 discover_streams_missing_title
            demo_request (demo_config ["idA"; "idC"])
            [demo_entry "idA"] (demo_entry "idC") []
            "idC" {| json_title := None; json_values := None; json_range := None |}
            _ _ _ _ _)) _).
  - reflexivity.
  - left. reflexivity.
  - reflexivity.
  - reflexivity.
  - reflexivity.
  - repeat constructor.
    exists "idA", "1:1", {| json_title := None; json_values := Some [["Name"; "Age"]];
                            json_range := Some "Sheet1!A1:Z1" |}, ["Name"; "Age"], [].
    split_and!; [reflexivity.. | | ].
    + right. eexists _, _. split; reflexivity.
    + right. eexists. reflexivity.
Defined.

(** ** Further properties of the code *)

(** *** [get_parsed_sheet_id] *)

Lemma resolve_canonical raw : canonical raw → get_parsed_sheet_id raw = Ok raw.
Proof.
  intros Hc. unfold get_parsed_sheet_id.
  destruct (proj2 (fullmatch_id_pattern raw) Hc) as [gs ->]. done.
Qed.

Lemma resolve_Ok_inv raw g :
  get_parsed_sheet_id raw = Ok g →
  (canonical raw ∧ g = raw) ∨ (¬ canonical raw ∧ first_capture raw g).
Proof.
  unfold get_parsed_sheet_id. pose proof (fullmatch_id_pattern raw) as Hfull.
  destruct (Re.fullmatch id_pattern raw) as [gs|] eqn:Ef.
  - intros [= <-]. left. split; [|done]. apply Hfull. eauto.
  - assert (¬ canonical raw) as Hc by (intros H; apply Hfull in H; by destruct H).
    destruct (Re.search url_pattern raw) as [gs|] eqn:Es; [|done].
    apply search_url_Some in Es as (g' & -> & Hfirst). intros [= <-]. by right.
Qed.

Lemma resolve_capture raw g :
  ¬ canonical raw → first_capture raw g → get_parsed_sheet_id raw = Ok g.
Proof.
  intros Hc Hg. unfold get_parsed_sheet_id.
  destruct (Re.fullmatch id_pattern raw) as [gs|] eqn:Ef.
  { exfalso. apply Hc, fullmatch_id_pattern. eauto. }
  by rewrite (proj2 (search_url_Some raw [g]) (ex_intro _ g (conj eq_refl Hg))).
Qed.

Lemma resolve_none raw :
  ¬ canonical raw → (¬ ∃ pre g post, url_occurrence raw pre g post) →
  get_parsed_sheet_id raw = Raise (RuntimeError (not_found_message raw)).
Proof.
  intros Hc Hno. unfold get_parsed_sheet_id.
  destruct (Re.fullmatch id_pattern raw) as [gs|] eqn:Ef.
  { exfalso. apply Hc, fullmatch_id_pattern. eauto. }
  by rewrite (proj2 (search_url_None raw) Hno).
Qed.

(** What [get_parsed_sheet_id] returns is never empty, holds identifier
    characters only, and stands in the input: it is the input itself or
    follows [/d/] in it. *)
Theorem get_parsed_sheet_id_result raw g :
  get_parsed_sheet_id raw = Ok g →
  g ≠ [] ∧ all_in id_class g
  ∧ (g = raw ∨ ∃ pre post, raw = pre ++ "/d/" ++ g ++ post).
Proof.
  intros [[[[Hlen _] Hall] ->] | [_ (pre & post & (-> & Hne & Hall) & _)]]%resolve_Ok_inv.
  - split_and!; [|done|by left]. intros ->. simpl in Hlen. lia.
  - split_and!; [done..|]. right. eauto.
Qed.

Lemma get_parsed_sheet_id_result_witness :
  get_parsed_sheet_id "https://docs.google.com/spreadsheets/d/1a-B_c/edit" = Ok "1a-B_c"
  ∧ "1a-B_c" ≠ [] ∧ all_in id_class "1a-B_c".
Proof.
  split; [reflexivity|].
  destruct (get_parsed_sheet_id_result
              "https://docs.google.com/spreadsheets/d/1a-B_c/edit" "1a-B_c" eq_refl)
    as (Hne & Hall & _).
  split; [exact Hne | exact Hall].
Defined.

Lemma all_in_no_slash g : all_in id_class g → "/"%char ∉ g.
Proof.
  intros Hall Hin. apply (proj1 (Forall_forall _ _) Hall) in Hin. by cbv in Hin.
Qed.

(** An identifier whose length is outside 40..50 is refused when it is given
    bare, and accepted when it is given behind [/d/]: the function does not
    accept all of its own answers. *)
Theorem get_parsed_sheet_id_bare_length g :
  g ≠ [] → all_in id_class g → ¬ (40 ≤ length g ≤ 50) →
  get_parsed_sheet_id g = Raise (RuntimeError (not_found_message g))
  ∧ get_parsed_sheet_id ("/d/" ++ g) = Ok g.
Proof.
  intros Hne Hall Hlen. split.
  - apply resolve_none.
    + by intros [? _].
    + intros (pre & g' & post & -> & _). apply (all_in_no_slash _ Hall).
      rewrite elem_of_app. right. left.
  - apply resolve_capture.
    + intros [_ Hc]. apply (all_in_no_slash _ Hc). left.
    + exists [], []. split_and!.
      * split_and!; [by rewrite app_nil_r | done..].
      * by intros c rest' [=].
      * intros. simpl. lia.
Qed.

Lemma get_parsed_sheet_id_bare_length_witness :
  "1a-B_c" ≠ [] ∧ all_in id_class "1a-B_c" ∧ ¬ (40 ≤ length "1a-B_c" ≤ 50)
  ∧ get_parsed_sheet_id "1a-B_c" = Raise (RuntimeError (not_found_message "1a-B_c"))
  ∧ get_parsed_sheet_id ("/d/" ++ "1a-B_c") = Ok "1a-B_c".
Proof.
  assert ("1a-B_c" ≠ []) as Hne by discriminate.
  assert (all_in id_class "1a-B_c") as Hall
    by (repeat (constructor; [exact I|]); constructor).
  assert (¬ (40 ≤ length "1a-B_c" ≤ 50)) as Hlen by (simpl; lia).
  split; [exact Hne|]. split; [exact Hall|]. split; [exact Hlen|].
  exact (get_parsed_sheet_id_bare_length "1a-B_c" Hne Hall Hlen).
Defined.

(** *** Field names *)

Lemma lstrip_nil s : lstrip s = [] ↔ Forall (λ c, isspace c) s.
Proof.
  induction s as [|c s IH]; simpl; [by split; [constructor|]|].
  destruct (isspace c) eqn:E.
  - rewrite IH. split; [intros ?; constructor; [by rewrite E | done] | by intros [_ ?]%Forall_cons].
  - split; [done|]. intros [Hc _]%Forall_cons. by rewrite E in Hc.
Qed.

Lemma rstrip_nil s : rstrip s = [] ↔ Forall (λ c, isspace c) s.
Proof.
  induction s as [|c s IH]; simpl; [by split; [constructor|]|].
  destruct (rstrip s) as [|c' t] eqn:Er.
  - destruct (isspace c) eqn:E.
    + split; [intros _; constructor; [by rewrite E | by apply IH] | done].
    + split; [done|]. intros [Hc _]%Forall_cons. by rewrite E in Hc.
  - split; [done|]. intros [_ Hs]%Forall_cons. by apply IH in Hs.
Qed.

Lemma lstrip_space s :
  Forall (λ c, isspace c) (lstrip s) → Forall (λ c, isspace c) s.
Proof.
  induction s as [|c s IH]; simpl; [done|]. destruct (isspace c) eqn:E; [|done].
  intros H. constructor; [by rewrite E | by apply IH].
Qed.

Lemma strip_nil s : strip s = [] ↔ Forall (λ c, isspace c) s.
Proof.
  unfold strip. rewrite rstrip_nil. split; [apply lstrip_space|].
  intros H. by rewrite (proj2 (lstrip_nil s) H).
Qed.

Lemma squeeze_nil b s : squeeze b s = [] → s = [] ∨ b = true.
Proof.
  destruct s as [|c s]; [by left|]. simpl.
  destruct (isspace c); [|done]. destruct b; [by right | done].
Qed.

(** A normalised field name holds no whitespace, and the names the rule
    leaves as they are are exactly those without whitespace. *)
Theorem normalize_no_whitespace (s : str) :
  no_space (normalize s) ∧ (normalize s = s ↔ no_space s).
Proof.
  assert (no_space (normalize s)) as H
    by (rewrite normalize_squeeze; apply squeeze_no_space).
  split; [exact H|]. split.
  - intros E. by rewrite E in H.
  - intros Hs. rewrite normalize_squeeze. unfold strip.
    by rewrite (lstrip_id _ Hs), (rstrip_id _ Hs), (squeeze_id _ _ Hs).
Qed.

(** The normalised name is empty exactly when the header cell is blank
    (empty or all whitespace). *)
Theorem normalize_empty_iff_blank (s : str) :
  normalize s = [] ↔ Forall (λ c, isspace c) s.
Proof.
  rewrite normalize_squeeze, <- strip_nil. split.
  - intros [E | E]%squeeze_nil; done.
  - by intros ->.
Qed.

(** *** [get_selected_columns] and [get_first_visible_child_sheet_name] *)

Lemma selected_step_well acc item :
  well_keyed item →
  selected_step acc item = Ok (acc ++ option_list (marked_column item)).
Proof.
  unfold well_keyed, selected_step, marked_column. intros Hw.
  destruct (bool_decide ("properties" ∈ item.1)) eqn:E.
  - apply bool_decide_eq_true in E. specialize (Hw E).
    destruct item as [[|a [|c [|x l]]] sel]; simplify_eq/=.
    destruct (bool_decide (sel = Some true)); simpl; [done | by rewrite app_nil_r].
  - destruct item as [[|a [|c [|x l]]] sel]; simpl; by rewrite app_nil_r.
Qed.

Lemma selected_step_bad acc item :
  ¬ well_keyed item →
  selected_step acc item
  = Raise (ValueError (if decide (length item.1 = 1)
                       then "not enough values to unpack (expected 2, got 1)"
                       else "too many values to unpack (expected 2)")).
Proof.
  unfold well_keyed, selected_step. intros Hw.
  destruct (bool_decide ("properties" ∈ item.1)) eqn:E.
  - destruct item as [[|a [|c [|x l]]] sel]; cbn [fst snd] in *.
    + by apply bool_decide_eq_true, elem_of_nil in E.
    + reflexivity.
    + exfalso. by apply Hw.
    + reflexivity.
  - exfalso. apply Hw. intros Hin. by apply bool_decide_eq_false in E.
Qed.

Lemma selected_loop_well metadata acc :
  Forall well_keyed metadata →
  for_loop selected_step metadata acc = Ok (acc ++ omap marked_column metadata).
Proof.
  intros H. revert acc. induction H as [|item l Hw _ IH]; intros acc; simpl.
  - by rewrite app_nil_r.
  - rewrite (selected_step_well _ _ Hw). cbn [mbind result_bind]. rewrite IH.
    destruct (marked_column item); simpl; by rewrite <- ?app_assoc, ?app_nil_r.
Qed.

Lemma selected_loop_first_bad before item after acc :
  Forall well_keyed before → ¬ well_keyed item →
  for_loop selected_step (before ++ item :: after) acc
  = Raise (ValueError (if decide (length item.1 = 1)
                       then "not enough values to unpack (expected 2, got 1)"
                       else "too many values to unpack (expected 2)")).
Proof.
  intros Hw Hbad. rewrite for_loop_app, (selected_loop_well _ _ Hw).
  cbn [mbind result_bind for_loop]. by rewrite (selected_step_bad _ _ Hbad).
Qed.

Lemma first_bad_item (metadata : list (list str * option bool)) :
  ¬ Forall well_keyed metadata →
  ∃ before item after,
    metadata = before ++ item :: after ∧ Forall well_keyed before ∧ ¬ well_keyed item.
Proof.
  induction metadata as [|item l IH]; intros Hbad.
  - exfalso. apply Hbad. constructor.
  - destruct (decide (well_keyed item)) as [Hw|Hw].
    + destruct IH as (before & item' & after & -> & Hb & Hi).
      { intros Hl. apply Hbad. by constructor. }
      exists (item :: before), item', after. split_and!; [done | by constructor | done].
    + exists [], item, l. split_and!; [done | constructor | done].
Qed.

Lemma selected_loop_bad metadata acc :
  ¬ Forall well_keyed metadata →
  ∃ msg, for_loop selected_step metadata acc = Raise (ValueError msg).
Proof.
  intros (before & item & after & -> & Hw & Hbad)%first_bad_item.
  rewrite (selected_loop_first_bad _ _ _ _ Hw Hbad). eauto.
Qed.

Lemma get_selected_columns_loop metadata :
  get_selected_columns metadata
  = selected_columns ← for_loop selected_step metadata [];
    Ok (elements (list_to_set (normalize <$> selected_columns) : gset str)).
Proof. reflexivity. Qed.

Lemma elem_of_marked (metadata : list (list str * option bool)) c :
  c ∈ omap marked_column metadata ↔
  ∃ a, ([a; c], Some true) ∈ metadata ∧ "properties" ∈ [a; c].
Proof.
  rewrite list_elem_of_omap. unfold marked_column. split.
  - intros ([[|a [|c' [|x l]]] sel] & Hin & Hm); simpl in Hm; try done.
    destruct (bool_decide _) eqn:E1; [|done].
    destruct (bool_decide (sel = _)) eqn:E2; [|done].
    apply bool_decide_eq_true in E1, E2. simpl in Hm. simplify_eq. eauto.
  - intros (a & Hin & Hp). exists ([a; c], Some true). split; [done|]. simpl.
    by rewrite !bool_decide_eq_true_2.
Qed.

(** [get_selected_columns] raises exactly when some breadcrumb that holds
    ["properties"] does not have two elements: the [ValueError] of the
    unpacking at the first such item, which says ["not enough values"] for a
    breadcrumb of one element and ["too many values"] for a longer one.
    Otherwise its answer lists, without repetition, the normalised names of
    the columns the catalog marks as selected, and nothing else. *)
Theorem get_selected_columns_spec (metadata : Metadata) :
  (Forall well_keyed metadata →
   ∃ selected,
     get_selected_columns metadata = Ok selected
     ∧ NoDup selected
     ∧ (∀ k, k ∈ selected ↔
          ∃ a c, ([a; c], Some true) ∈ metadata ∧ "properties" ∈ [a; c]
                 ∧ k = normalize c)
     ∧ (selected = [] ↔ omap marked_column metadata = []))
  ∧ (∀ before item after,
       metadata = before ++ item :: after →
       Forall well_keyed before → ¬ well_keyed item →
       get_selected_columns metadata
       = Raise (ValueError (if decide (length item.1 = 1)
                            then "not enough values to unpack (expected 2, got 1)"
                            else "too many values to unpack (expected 2)")))
  ∧ (¬ Forall well_keyed metadata →
     ∃ msg, get_selected_columns metadata = Raise (ValueError msg)).
Proof.
  rewrite get_selected_columns_loop. split_and!.
  - intros Hw. rewrite (selected_loop_well _ _ Hw). cbn [mbind result_bind app].
    eexists. split; [reflexivity|]. split; [apply NoDup_elements|]. split.
    + intros k. rewrite elem_of_elements, elem_of_list_to_set, list_elem_of_fmap.
      setoid_rewrite elem_of_marked. split.
      * intros (c & -> & a & Hin & Hp). eauto.
      * intros (a & c & Hin & Hp & ->). eauto.
    + rewrite elements_empty_iff. split.
      * intros E. destruct (omap marked_column metadata) as [|c l]; [done|].
        exfalso. apply (not_elem_of_empty (C:=gset str) (normalize c)).
        rewrite <- E. rewrite elem_of_list_to_set. left.
      * by intros ->.
  - intros before item after -> Hw Hbad.
    by rewrite (selected_loop_first_bad _ _ _ _ Hw Hbad).
  - intros Hbad. destruct (selected_loop_bad _ [] Hbad) as [msg ->]. eauto.
Qed.

Lemma get_selected_columns_spec_witness :
  (Forall well_keyed [([], None); (["properties"; "First  Name"], Some true);
                      (["properties"; "Age"], Some false)]
   ∧ ∃ selected,
       get_selected_columns [([], None); (["properties"; "First  Name"], Some true);
                             (["properties"; "Age"], Some false)] = Ok selected
       ∧ NoDup selected)
  ∧ (¬ well_keyed (["properties"], Some true)
     ∧ get_selected_columns [(["properties"; "Age"], Some true);
                             (["properties"], Some true);
                             (["properties"; "a"; "b"], None)]
       = Raise (ValueError "not enough values to unpack (expected 2, got 1)"))
  ∧ (¬ well_keyed (["properties"; "a"; "b"], None)
     ∧ get_selected_columns [(["properties"; "a"; "b"], None)]
       = Raise (ValueError "too many values to unpack (expected 2)")).
Proof.
  assert (¬ well_keyed (["properties"], Some true)) as Hone.
  { apply (bool_decide_unpack _). reflexivity. }
  assert (¬ well_keyed (["properties"; "a"; "b"], None)) as Hthree.
  { apply (bool_decide_unpack _). reflexivity. }
  split; [|split].
  2:{ split; [exact Hone|].
      refine (proj1 (proj2 (get_selected_columns_spec _))
                [(["properties"; "Age"], Some true)] (["properties"], Some true)
                [(["properties"; "a"; "b"], None)] eq_refl _ Hone).
      apply (bool_decide_unpack _). reflexivity. }
  2:{ split; [exact Hthree|].
      exact (proj1 (proj2 (get_selected_columns_spec _))
               [] (["properties"; "a"; "b"], None) [] eq_refl (Forall_nil_2 _) Hthree). }
  assert (Forall well_keyed [([], None); (["properties"; "First  Name"], Some true);
                             (["properties"; "Age"], Some false)]) as Hw.
  { apply (bool_decide_unpack _). reflexivity. }
  split; [exact Hw|].
  destruct (proj1 (get_selected_columns_spec _) Hw) as (selected & Hs & Hn & _).
  exists selected. split; [exact Hs | exact Hn].
Defined.

Lemma existsb_sep sep (l : str) :
  existsb (λ d, bool_decide (d = sep)) l = true ↔ sep ∈ l.
Proof.
  rewrite existsb_exists. split.
  - intros (x & Hin%list_elem_of_In & ->%bool_decide_eq_true). done.
  - intros Hin. exists sep. split; [by apply list_elem_of_In | by apply bool_decide_eq_true].
Qed.

Lemma rsplit1_head_app sep a b :
  sep ∉ b → rsplit1_head sep (a ++ sep :: b) = a.
Proof.
  intros Hb. induction a as [|c a IH]; simpl.
  - destruct (existsb _ b) eqn:E; [by apply existsb_sep in E|].
    by rewrite decide_True.
  - rewrite (proj2 (existsb_sep sep (a ++ sep :: b))); [by rewrite IH|].
    rewrite elem_of_app. right. left.
Qed.

Lemma rsplit1_head_none sep s : sep ∉ s → rsplit1_head sep s = s.
Proof.
  intros Hs. destruct s as [|c s]; [done|]. simpl.
  destruct (existsb _ s) eqn:E.
  - apply existsb_sep in E. exfalso. apply Hs. by right.
  - rewrite decide_False; [done|]. intros ->. apply Hs. left.
Qed.

(** [get_first_visible_child_sheet_name] cuts the range of the response at
    its last ["!"]: a tab name that holds ["!"] itself is kept whole, a range
    without ["!"] is returned as it is, and a body without ["range"] is a
    [KeyError]. *)
Theorem get_first_visible_child_sheet_name_spec (body : Json) :
  (∀ tab cells,
     json_range body = Some (tab ++ "!" ++ cells) → "!"%char ∉ cells →
     get_first_visible_child_sheet_name body = Ok tab)
  ∧ (∀ r, json_range body = Some r → "!"%char ∉ r →
          get_first_visible_child_sheet_name body = Ok r)
  ∧ (json_range body = None →
     get_first_visible_child_sheet_name body = Raise (KeyError "range")).
Proof.
  unfold get_first_visible_child_sheet_name. split_and!.
  - intros tab cells E Hc. rewrite E. f_equal. exact (rsplit1_head_app _ tab cells Hc).
  - intros r E Hr. rewrite E. f_equal. exact (rsplit1_head_none _ r Hr).
  - by intros ->.
Qed.

Lemma get_first_visible_child_sheet_name_spec_witness :
  json_range (demo_header ["Id"] "Q1!Q2!A1:Z1") = Some ("Q1!Q2" ++ "!" ++ "A1:Z1")
  ∧ ("!"%char ∉ "A1:Z1")
  ∧ get_first_visible_child_sheet_name (demo_header ["Id"] "Q1!Q2!A1:Z1") = Ok "Q1!Q2".
Proof.
  assert ("!"%char ∉ "A1:Z1") as Hc.
  { apply (bool_decide_unpack _). reflexivity. }
  split; [reflexivity|]. split; [exact Hc|].
  exact (proj1 (get_first_visible_child_sheet_name_spec
                  (demo_header ["Id"] "Q1!Q2!A1:Z1"))
               "Q1!Q2" "A1:Z1" eq_refl Hc).
Defined.

(** *** [get_schema] *)

Lemma keys_fold_pairs {V} (l : list (str * V)) (d : list (str * V)) :
  Dict.keys (fold_left (λ d p, Dict.set p.1 p.2 d) l d)
  = Dict.keys d ++ filter (λ k, k ∉ Dict.keys d) (first_occurrences l.*1).
Proof.
  revert d. induction l as [|[k v] l IH]; intros d.
  - simpl. by rewrite app_nil_r.
  - cbn [fold_left fmap list_fmap first_occurrences fst snd]. rewrite IH, keys_set.
    destruct (decide (k ∈ Dict.keys d)) as [Hin|Hin].
    + rewrite filter_cons_False by tauto. f_equal.
      rewrite list_filter_filter. apply list_filter_iff. intros y. split.
      * intros Hy. split; [done|]. by intros ->.
      * by intros [? ?].
    + rewrite filter_cons_True by done. rewrite <- app_assoc. simpl. do 2 f_equal.
      rewrite list_filter_filter. apply list_filter_iff. intros y.
      rewrite elem_of_app, list_elem_of_singleton. split.
      * intros Hy. split; intros ?; apply Hy; [by left | by right].
      * intros [? ?] [?|?]; done.
Qed.

(** The keys of [dict(pairs)]: the keys of the pairs, each once, in the
    order of first occurrence. *)
Lemma keys_of_pairs {V} (l : list (str * V)) :
  Dict.keys (Dict.of_pairs l) = first_occurrences l.*1.
Proof.
  unfold Dict.of_pairs. rewrite keys_fold_pairs. cbn [Dict.keys fmap list_fmap app].
  apply filter_all. intros x _. apply not_elem_of_nil.
Qed.

Lemma get_schema_keys body headings data :
  json_values body = Some (headings :: data) →
  ∃ schema, get_schema body = Ok schema
    ∧ Dict.keys schema = first_occurrences (normalize <$> filter (λ h, h ≠ []) headings).
Proof.
  intros Hv. unfold get_schema, unpack_values. rewrite Hv. cbn [mbind result_bind fst].
  eexists. split; [reflexivity|].
  pose proof (keys_schema_fold headings []) as Hk. unfold schema_step in Hk.
  rewrite Hk. cbn [Dict.keys fmap list_fmap app].
  apply filter_all. intros x _. apply not_elem_of_nil.
Qed.

Lemma get_schema_Ok_inv body schema :
  get_schema body = Ok schema →
  ∃ headings data, json_values body = Some (headings :: data).
Proof.
  unfold get_schema, unpack_values.
  destruct (json_values body) as [[|h d]|]; [done| |done]. eauto.
Qed.

Lemma normalize_no_space s : no_space (normalize s).
Proof. rewrite normalize_squeeze. apply squeeze_no_space. Qed.

Lemma first_occurrences_nil l : first_occurrences l = [] ↔ l = [].
Proof. by destruct l. Qed.

Lemma filter_nonempty_nil (headings : list str) :
  filter (λ h, h ≠ []) headings = [] ↔ Forall (λ h, h = []) headings.
Proof.
  induction headings as [|h hs IH]; [done|].
  destruct (decide (h = [])) as [->|Hne].
  - rewrite filter_cons_False by (intros Hn; by apply Hn). rewrite IH. split.
    + by constructor.
    + by inversion 1.
  - rewrite filter_cons_True by done. split; [done|]. by inversion 1.
Qed.

Lemma get_schema_names body schema :
  get_schema body = Ok schema →
  NoDup (Dict.keys schema) ∧ Forall no_space (Dict.keys schema).
Proof.
  intros Hs. destruct (get_schema_Ok_inv _ _ Hs) as (headings & data & Hv).
  destruct (get_schema_keys _ _ _ Hv) as (schema' & Hs' & Hk).
  rewrite Hs in Hs'. injection Hs' as <-. rewrite Hk. split.
  - apply NoDup_first_occurrences.
  - apply Forall_forall. intros k Hin.
    apply (proj1 (elem_of_first_occurrences _ _)) in Hin.
    apply list_elem_of_fmap in Hin as (h & -> & _). apply normalize_no_space.
Qed.

(** The schema [get_schema] returns never lists a name twice and never
    holds a name with whitespace; it has no field exactly when every header
    cell is empty.  The function raises only for a body without ["values"]
    ([KeyError]) or with no row at all (the [ValueError] of the unpacking,
    which expected at least one value and got none). *)
Theorem get_schema_invariants (body : Json) :
  (∀ schema,
     get_schema body = Ok schema →
     ∃ headings data,
       json_values body = Some (headings :: data)
       ∧ NoDup (Dict.keys schema)
       ∧ Forall no_space (Dict.keys schema)
       ∧ (schema = [] ↔ Forall (λ h, h = []) headings))
  ∧ (∀ e, get_schema body = Raise e →
       (json_values body = None ∧ e = KeyError "values")
       ∨ (json_values body = Some []
          ∧ e = ValueError "not enough values to unpack (expected at least 1, got 0)")).
Proof.
  split.
  - intros schema Hs. destruct (get_schema_Ok_inv _ _ Hs) as (headings & data & Hv).
    destruct (get_schema_keys _ _ _ Hv) as (schema' & Hs' & Hk).
    rewrite Hs in Hs'. injection Hs' as <-.
    exists headings, data. destruct (get_schema_names _ _ Hs) as [Hnd Hsp].
    split_and!; [done..|].
    assert (schema = [] ↔ Dict.keys schema = []) as -> by (by destruct schema).
    rewrite Hk, first_occurrences_nil, <- filter_nonempty_nil. split.
    + apply fmap_nil_inv.
    + by intros ->.
  - intros e. unfold get_schema, unpack_values.
    destruct (json_values body) as [[|h d]|]; cbn [mbind result_bind].
    + intros [= <-]. by right.
    + done.
    + intros [= <-]. by left.
Qed.

Lemma get_schema_invariants_witness :
  (get_schema (sheet_values [["First Name"; ""; "  Age "; "First   Name"]; ["x"]])
   = Ok [("First_Name", StringType); ("Age", StringType)]
   ∧ ∃ headings data,
       json_values (sheet_values [["First Name"; ""; "  Age "; "First   Name"]; ["x"]])
       = Some (headings :: data)
       ∧ NoDup (Dict.keys [("First_Name", StringType); ("Age", StringType)])
       ∧ Forall no_space (Dict.keys [("First_Name", StringType); ("Age", StringType)]))
  ∧ ∃ e, get_schema (sheet_values []) = Raise e
         ∧ e = ValueError "not enough values to unpack (expected at least 1, got 0)".
Proof.
  assert (get_schema (sheet_values [["First Name"; ""; "  Age "; "First   Name"]; ["x"]])
          = Ok [("First_Name", StringType); ("Age", StringType)]) as E by reflexivity.
  split.
  - split; [exact E|].
    destruct (proj1 (get_schema_invariants _) _ E) as (headings & data & Hv & Hn & Hs & _).
    exists headings, data. by split_and!.
  - eexists. split; [reflexivity|].
    destruct (proj2 (get_schema_invariants (sheet_values [])) _ eq_refl)
      as [[Hnone _]|[_ He]]; [discriminate Hnone | exact He].
Defined.

(** *** Records against the schema *)

Lemma columns_keys sel headings values :
  (columns sel headings values).*1
  = normalize <$> filter (λ h, truthy h && bool_decide (normalize h ∈ sel) = true) headings.
Proof.
  revert values. induction headings as [|h hs IH]; intros values; [done|].
  cbn [columns]. rewrite fmap_app, IH. destruct (truthy h && _) eqn:E.
  - by rewrite filter_cons_True by done.
  - rewrite filter_cons_False; [done|]. by rewrite E.
Qed.

Lemma first_occurrences_filter (P : str → Prop) `{∀ x, Decision (P x)} l :
  first_occurrences (filter P l) = filter P (first_occurrences l).
Proof.
  induction l as [|x l IH]; [done|]. cbn [first_occurrences].
  destruct (decide (P x)) as [Hx|Hx].
  - rewrite !filter_cons_True by done. cbn [first_occurrences]. f_equal.
    rewrite IH, !list_filter_filter. apply list_filter_iff. tauto.
  - rewrite !filter_cons_False by done. rewrite IH, list_filter_filter.
    apply list_filter_iff. intros y. split; [|tauto].
    intros Hy. split; [done|]. by intros ->.
Qed.

Lemma filter_fmap_normalize (P : str → Prop) `{∀ x, Decision (P x)} (l : list str) :
  filter P (normalize <$> l) = normalize <$> filter (λ h, P (normalize h)) l.
Proof.
  induction l as [|x l IH]; [done|]. cbn [fmap list_fmap].
  destruct (decide (P (normalize x))).
  - rewrite !filter_cons_True by done. cbn [fmap list_fmap]. by rewrite <- IH.
  - by rewrite !filter_cons_False by done.
Qed.

(** The field names of a record: those of the schema that are in the
    effective selection [sel], in the order of the schema. *)
Lemma record_keys (sel : gset str) headings values :
  Dict.keys (Dict.of_pairs (columns sel headings values))
  = filter (λ k, k ∈ sel)
      (first_occurrences (normalize <$> filter (λ h, h ≠ []) headings)).
Proof.
  rewrite keys_of_pairs, columns_keys, <- first_occurrences_filter.
  f_equal. rewrite filter_fmap_normalize, list_filter_filter. f_equal.
  apply list_filter_iff. intros h.
  rewrite andb_true_iff, bool_decide_eq_true, truthy_true. tauto.
Qed.

(** [parse_response] and [get_schema] on the same response: every record
    has the field names of the schema that are selected, in the order of the
    schema, so all the records of a response have the same names; with no
    selection a record has every field of the schema. *)
Theorem parse_response_schema_keys (metadata : Metadata) (body : Json)
    (headings : list str) (data : list (list str)) (selected : list str) :
  json_values body = Some (headings :: data) →
  get_selected_columns metadata = Ok selected →
  ∃ schema records,
    get_schema body = Ok schema
    ∧ parse_response metadata body = Ok records
    ∧ length records = length data
    ∧ Forall (λ record,
                Dict.keys record
                = if decide (selected = []) then Dict.keys schema
                  else filter (λ k, k ∈ selected) (Dict.keys schema))
             records.
Proof.
  intros Hv Hsel. destruct (get_schema_keys _ _ _ Hv) as (schema & Hs & Hk).
  eexists schema, _. split; [exact Hs|].
  split; [exact (parse_response_eq _ _ _ _ _ Hv Hsel)|].
  split; [by rewrite length_fmap|].
  apply Forall_fmap, Forall_forall. intros values _. cbn [compose].
  rewrite record_keys, Hk. case_decide as Hem.
  - apply filter_all. intros k Hin.
    apply (proj1 (elem_of_first_occurrences _ _)) in Hin.
    apply elem_of_selected_columns_set. unfold in_selection.
    rewrite decide_True by done.
    apply list_elem_of_fmap in Hin as (h & -> & Hin%list_elem_of_filter).
    apply list_elem_of_fmap. exists h. tauto.
  - apply list_filter_iff. intros k. rewrite elem_of_selected_columns_set.
    unfold in_selection. by rewrite decide_False.
Qed.

Lemma parse_response_schema_keys_witness :
  json_values (sheet_values [["Name"; ""; "Age"; "Home town"]; ["Ann"; "x"; "31"]; []])
  = Some (["Name"; ""; "Age"; "Home town"] :: [["Ann"; "x"; "31"]; []])
  ∧ get_selected_columns (select_only ["Name"; "Age"; "Home town"] ["Home town"; "Name"])
    = Ok ["Home_town"; "Name"]
  ∧ ∃ schema records,
      get_schema (sheet_values [["Name"; ""; "Age"; "Home town"]; ["Ann"; "x"; "31"]; []])
      = Ok schema
      ∧ parse_response (select_only ["Name"; "Age"; "Home town"] ["Home town"; "Name"])
          (sheet_values [["Name"; ""; "Age"; "Home town"]; ["Ann"; "x"; "31"]; []])
        = Ok records
      ∧ length records = 2
      ∧ Forall (λ record,
                  Dict.keys record
                  = filter (λ k, k ∈ ["Home_town"; "Name"]) (Dict.keys schema)) records.
Proof.
  split; [reflexivity|]. split; [vm_compute; reflexivity|].
  destruct (parse_response_schema_keys
              (select_only ["Name"; "Age"; "Home town"] ["Home town"; "Name"])
              (sheet_values [["Name"; ""; "Age"; "Home town"]; ["Ann"; "x"; "31"]; []])
              ["Name"; ""; "Age"; "Home town"] [["Ann"; "x"; "31"]; []]
              ["Home_town"; "Name"] eq_refl)
    as (schema & records & Hs & Hp & Hl & Hk).
  - vm_compute. reflexivity.
  - exists schema, records. split_and!; [exact Hs | exact Hp | exact Hl | exact Hk].
Defined.

(** *** Rows are treated one by one *)

Lemma parse_response_raise metadata body headings data e :
  json_values body = Some (headings :: data) →
  get_selected_columns metadata = Raise e →
  parse_response metadata body = Raise e.
Proof.
  intros Hv Hs. unfold parse_response, unpack_values. rewrite Hv.
  cbn [mbind result_bind fst snd]. by rewrite Hs.
Qed.

(** The record of a row depends on the header and on that row only: the
    records of a response are those of its first rows followed by those of
    its other rows, under the same header, and an exception of either part
    is the exception of the whole. *)
Theorem parse_response_by_rows (metadata : Metadata) (body body1 body2 : Json)
    (headings : list str) (data1 data2 : list (list str)) :
  json_values body = Some (headings :: data1 ++ data2) →
  json_values body1 = Some (headings :: data1) →
  json_values body2 = Some (headings :: data2) →
  parse_response metadata body
  = records1 ← parse_response metadata body1;
    records2 ← parse_response metadata body2;
    Ok (records1 ++ records2).
Proof.
  intros Hv Hv1 Hv2. destruct (get_selected_columns metadata) as [selected|e] eqn:Hs.
  - rewrite (parse_response_eq _ _ _ _ _ Hv Hs), (parse_response_eq _ _ _ _ _ Hv1 Hs),
      (parse_response_eq _ _ _ _ _ Hv2 Hs).
    cbn [mbind result_bind]. by rewrite fmap_app.
  - by rewrite (parse_response_raise _ _ _ _ _ Hv Hs),
      (parse_response_raise _ _ _ _ _ Hv1 Hs).
Qed.

Lemma parse_response_by_rows_witness :
  parse_response [] (sheet_values [["a"; "b"]; ["1"; "2"]; ["3"]; []])
  = records1 ← parse_response [] (sheet_values [["a"; "b"]; ["1"; "2"]]);
    records2 ← parse_response [] (sheet_values [["a"; "b"]; ["3"]; []]);
    Ok (records1 ++ records2).
Proof.
  exact (parse_response_by_rows [] (sheet_values [["a"; "b"]; ["1"; "2"]; ["3"]; []])
           (sheet_values [["a"; "b"]; ["1"; "2"]]) (sheet_values [["a"; "b"]; ["3"]; []])
           ["a"; "b"] [["1"; "2"]] [["3"]; []] eq_refl eq_refl eq_refl).
Defined.

(** *** The outcomes of [parse_response] *)

Lemma get_selected_columns_well metadata :
  Forall well_keyed metadata →
  get_selected_columns metadata
  = Ok (elements (list_to_set (normalize <$> omap marked_column metadata) : gset str)).
Proof.
  intros Hw. rewrite get_selected_columns_loop, (selected_loop_well _ _ Hw). done.
Qed.

Lemma get_selected_columns_first_bad before item after :
  Forall well_keyed before → ¬ well_keyed item →
  get_selected_columns (before ++ item :: after)
  = Raise (ValueError (if decide (length item.1 = 1)
                       then "not enough values to unpack (expected 2, got 1)"
                       else "too many values to unpack (expected 2)")).
Proof.
  intros Hw Hbad.
  by rewrite get_selected_columns_loop, (selected_loop_first_bad _ _ _ _ Hw Hbad).
Qed.

Lemma get_selected_columns_bad metadata :
  ¬ Forall well_keyed metadata →
  ∃ msg, get_selected_columns metadata = Raise (ValueError msg).
Proof.
  intros (before & item & after & -> & Hw & Hbad)%first_bad_item.
  rewrite (get_selected_columns_first_bad _ _ _ Hw Hbad). eauto.
Qed.

(** [parse_response] succeeds exactly when the body has a header row and
    every catalog item can be unpacked; it then yields one record per data
    row, none for a response that holds the header only.  A body without
    ["values"] ([KeyError]) or without any row (the [ValueError] of the
    starred unpacking) fails first, whatever the catalog; the first catalog
    item that cannot be unpacked fails next, with the [ValueError] of its
    unpacking.  No row, short, long or empty, makes it raise. *)
Theorem parse_response_outcome (metadata : Metadata) (body : Json) :
  (json_values body = None →
   parse_response metadata body = Raise (KeyError "values"))
  ∧ (json_values body = Some [] →
     parse_response metadata body
     = Raise (ValueError "not enough values to unpack (expected at least 1, got 0)"))
  ∧ (∀ headings data before item after,
       json_values body = Some (headings :: data) →
       metadata = before ++ item :: after →
       Forall well_keyed before → ¬ well_keyed item →
       parse_response metadata body
       = Raise (ValueError (if decide (length item.1 = 1)
                            then "not enough values to unpack (expected 2, got 1)"
                            else "too many values to unpack (expected 2)")))
  ∧ (∀ headings data,
       json_values body = Some (headings :: data) →
       Forall well_keyed metadata →
       ∃ records,
         parse_response metadata body = Ok records
         ∧ length records = length data
         ∧ (data = [] → records = []))
  ∧ ((∃ records, parse_response metadata body = Ok records)
     ↔ (∃ headings data, json_values body = Some (headings :: data))
       ∧ Forall well_keyed metadata).
Proof.
  assert (∀ headings data,
            json_values body = Some (headings :: data) →
            Forall well_keyed metadata →
            ∃ records,
              parse_response metadata body = Ok records
              ∧ length records = length data
              ∧ (data = [] → records = [])) as Hok.
  { intros headings data Hv Hw.
    rewrite (parse_response_eq _ _ _ _ _ Hv (get_selected_columns_well _ Hw)).
    eexists. split; [reflexivity|]. split; [by rewrite length_fmap|]. by intros ->. }
  split_and!; [| | |exact Hok|].
  - intros Hv. unfold parse_response, unpack_values. by rewrite Hv.
  - intros Hv. unfold parse_response, unpack_values. by rewrite Hv.
  - intros headings data before item after Hv -> Hw Hbad.
    exact (parse_response_raise _ _ _ _ _ Hv
             (get_selected_columns_first_bad _ _ _ Hw Hbad)).
  - split.
    + intros [records Hr].
      destruct (json_values body) as [[|headings data]|] eqn:Hv.
      * unfold parse_response, unpack_values in Hr. by rewrite Hv in Hr.
      * split; [eauto|]. destruct (decide (Forall well_keyed metadata)) as [|Hw]; [done|].
        destruct (get_selected_columns_bad _ Hw) as [msg Hmsg].
        by rewrite (parse_response_raise _ _ _ _ _ Hv Hmsg) in Hr.
      * unfold parse_response, unpack_values in Hr. by rewrite Hv in Hr.
    + intros [(headings & data & Hv) Hw].
      destruct (Hok _ _ Hv Hw) as (records & Hr & _). eauto.
Qed.

Lemma parse_response_outcome_witness :
  (json_values (sheet_values []) = Some []
   ∧ parse_response [(["properties"], None)] (sheet_values [])
     = Raise (ValueError "not enough values to unpack (expected at least 1, got 0)"))
  ∧ (json_values (sheet_values [["a"]; ["1"]]) = Some (["a"] :: [["1"]])
     ∧ ¬ well_keyed (["properties"], None)
     ∧ parse_response [(["properties"; "a"], Some true); (["properties"], None)]
         (sheet_values [["a"]; ["1"]])
       = Raise (ValueError "not enough values to unpack (expected 2, got 1)"))
  ∧ (¬ well_keyed (["properties"; "a"; "b"], Some true)
     ∧ parse_response [(["properties"; "a"; "b"], Some true)]
         (sheet_values [["a"]; ["1"]])
       = Raise (ValueError "too many values to unpack (expected 2)"))
  ∧ (json_values (sheet_values [["a"]]) = Some (["a"] :: [])
     ∧ Forall well_keyed [(["properties"; "a"], Some true)]
     ∧ ∃ records,
         parse_response [(["properties"; "a"], Some true)] (sheet_values [["a"]])
         = Ok records
         ∧ records = []).
Proof.
  assert (¬ well_keyed (["properties"], None)) as Hone.
  { apply (bool_decide_unpack _). reflexivity. }
  assert (¬ well_keyed (["properties"; "a"; "b"], Some true)) as Hthree.
  { apply (bool_decide_unpack _). reflexivity. }
  assert (Forall well_keyed [(["properties"; "a"], Some true)]) as Hw.
  { apply (bool_decide_unpack _). reflexivity. }
  split_and!.
  - reflexivity.
  - exact (proj1 (proj2 (parse_response_outcome [(["properties"], None)] (sheet_values [])))
             eq_refl).
  - reflexivity.
  - exact Hone.
  - exact (proj1 (proj2 (proj2 (parse_response_outcome
                                  [(["properties"; "a"], Some true); (["properties"], None)]
                                  (sheet_values [["a"]; ["1"]]))))
             ["a"] [["1"]] [(["properties"; "a"], Some true)] (["properties"], None) []
             eq_refl eq_refl Hw Hone).
  - exact Hthree.
  - exact (proj1 (proj2 (proj2 (parse_response_outcome
                                  [(["properties"; "a"; "b"], Some true)]
                                  (sheet_values [["a"]; ["1"]]))))
             ["a"] [["1"]] [] (["properties"; "a"; "b"], Some true) []
             eq_refl eq_refl (Forall_nil_2 _) Hthree).
  - reflexivity.
  - exact Hw.
  - destruct (proj1 (proj2 (proj2 (proj2
                (parse_response_outcome [(["properties"; "a"], Some true)]
                   (sheet_values [["a"]])))))
                ["a"] [] eq_refl Hw) as (records & Hr & _ & Hnil).
    exists records. split; [exact Hr | by apply Hnil].
Defined.

(** *** The selection *)

Lemma columns_none sel headings values :
  (∀ h, h ∈ headings → h ≠ [] → normalize h ∉ sel) →
  columns sel headings values = [].
Proof.
  revert values. induction headings as [|h hs IH]; intros values Hno; [done|].
  cbn [columns]. rewrite IH by (intros h' Hin; apply Hno; by right).
  destruct (truthy h && _) eqn:E; [|done].
  apply andb_true_iff in E as [Ht Hin]. apply bool_decide_eq_true in Hin.
  rewrite truthy_true in Ht. exfalso. apply (Hno h); [left | done | done].
Qed.

(** A selection that names no column of the sheet gives records without
    any field, one per row: the fall back to every column is for the empty
    selection only. *)
Theorem parse_response_selection_misses (metadata : Metadata) (body : Json)
    (headings : list str) (data : list (list str)) (selected : list str) :
  json_values body = Some (headings :: data) →
  get_selected_columns metadata = Ok selected →
  selected ≠ [] →
  (∀ h, h ∈ headings → h ≠ [] → normalize h ∉ selected) →
  parse_response metadata body = Ok (replicate (length data) []).
Proof.
  intros Hv Hs Hne Hno. rewrite (parse_response_eq _ _ _ _ _ Hv Hs). f_equal.
  induction data as [|values data IH] in |- *; [done|]. cbn [fmap list_fmap length replicate].
  f_equal; [|exact IH]. rewrite columns_none; [done|].
  intros h Hin Hh. rewrite elem_of_selected_columns_set. unfold in_selection.
  rewrite decide_False by done. by apply Hno.
Qed.

Lemma parse_response_selection_misses_witness :
  parse_response (select_only ["Name"; "Zip"] ["Zip"])
    (sheet_values [["Name"; "Age"]; ["Ann"; "31"]; ["Bob"]])
  = Ok [[]; []].
Proof.
  apply (parse_response_selection_misses (select_only ["Name"; "Zip"] ["Zip"])
           (sheet_values [["Name"; "Age"]; ["Ann"; "31"]; ["Bob"]])
           ["Name"; "Age"] [["Ann"; "31"]; ["Bob"]] ["Zip"]).
  - reflexivity.
  - vm_compute. reflexivity.
  - discriminate.
  - apply (proj1 (Forall_forall (λ h : str, h ≠ [] → normalize h ∉ ["Zip"]) _)).
    apply (bool_decide_unpack _). reflexivity.
Defined.

(** The records depend on the catalog only through the set of the
    normalised names of the columns it marks as selected: the order of the
    items, a name marked twice, and the spacing of a name make no
    difference. *)
Theorem parse_response_selection_set (metadata1 metadata2 : Metadata) (body : Json) :
  Forall well_keyed metadata1 →
  Forall well_keyed metadata2 →
  (∀ k, k ∈ normalize <$> omap marked_column metadata1
        ↔ k ∈ normalize <$> omap marked_column metadata2) →
  parse_response metadata1 body = parse_response metadata2 body.
Proof.
  intros Hw1 Hw2 Hsame. unfold parse_response.
  rewrite (get_selected_columns_well _ Hw1), (get_selected_columns_well _ Hw2).
  assert ((list_to_set (normalize <$> omap marked_column metadata1) : gset str)
          = list_to_set (normalize <$> omap marked_column metadata2)) as ->; [|done].
  apply set_eq. intros k. by rewrite !elem_of_list_to_set.
Qed.

Lemma parse_response_selection_set_witness :
  parse_response [(["properties"; " First  Name"], Some true);
                  (["properties"; "Age"], Some true);
                  (["properties"; "First Name "], Some true)]
    (sheet_values [["First Name"; "Age"; "Town"]; ["Ann"; "31"; "Rome"]])
  = parse_response [(["properties"; "Age"], Some true);
                    (["properties"; "Town"], Some false);
                    (["properties"; "First_Name"], Some true)]
      (sheet_values [["First Name"; "Age"; "Town"]; ["Ann"; "31"; "Rome"]]).
Proof.
  apply parse_response_selection_set.
  - apply (bool_decide_unpack _). reflexivity.
  - apply (bool_decide_unpack _). reflexivity.
  - intros k. vm_compute omap. 
    change (normalize <$> [" First  Name"; "Age"; "First Name "])
      with ["First_Name"; "Age"; "First_Name"].
    change (normalize <$> ["Age"; "First_Name"]) with ["Age"; "First_Name"].
    rewrite !elem_of_cons. tauto.
Defined.

(** *** The first line of a range *)

Lemma of_lu_numeral_digit c d :
  Re.in_class [Re.Digit] c →
  DecimalPos.Unsigned.of_lu (numeral_digit c d)
  = (digit_value c + 10 * DecimalPos.Unsigned.of_lu d)%N.
Proof.
  destruct c as [[] [] [] [] [] [] [] []]; intros Hc; cbv in Hc; try done; reflexivity.
Qed.

Lemma revapp_numeral_digit c d acc :
  Decimal.revapp (numeral_digit c d) acc = Decimal.revapp d (numeral_digit c acc).
Proof. unfold numeral_digit. by repeat case_match. Qed.

Lemma nb_digits_numeral_digit c d :
  Decimal.nb_digits (numeral_digit c d) = S (Decimal.nb_digits d).
Proof. unfold numeral_digit. by repeat case_match. Qed.

Lemma int_revapp s acc :
  all_in [Re.Digit] s →
  fold_left (λ acc c, 10 * acc + digit_value c)%N s (DecimalPos.Unsigned.of_lu acc)
  = DecimalPos.Unsigned.of_lu (Decimal.revapp (numeral s) acc).
Proof.
  intros Hs. revert acc. induction Hs as [|c s Hc _ IH]; intros acc; [done|].
  cbn [fold_left numeral foldr]. rewrite revapp_numeral_digit.
  fold (numeral s). rewrite <- IH, (of_lu_numeral_digit _ _ Hc). f_equal. lia.
Qed.

Lemma int_numeral s : all_in [Re.Digit] s → int s = N.of_uint (numeral s).
Proof.
  intros Hs. unfold N.of_uint. rewrite DecimalPos.Unsigned.of_uint_alt.
  unfold Decimal.rev.
  rewrite <- (int_revapp _ _ Hs). done.
Qed.

Lemma nb_digits_numeral s : Decimal.nb_digits (numeral s) = length s.
Proof.
  induction s as [|c s IH]; [done|]. cbn [numeral foldr length].
  rewrite nb_digits_numeral_digit. f_equal. exact IH.
Qed.

Lemma string_of_uint_digits d :
  all_in [Re.Digit] (String.list_ascii_of_string (NilEmpty.string_of_uint d))
  ∧ length (String.list_ascii_of_string (NilEmpty.string_of_uint d)) = Decimal.nb_digits d.
Proof.
  induction d as [|d [IH1 IH2]|d [IH1 IH2]|d [IH1 IH2]|d [IH1 IH2]|d [IH1 IH2]
                  |d [IH1 IH2]|d [IH1 IH2]|d [IH1 IH2]|d [IH1 IH2]|d [IH1 IH2]];
    cbn [NilEmpty.string_of_uint String.list_ascii_of_string length Decimal.nb_digits];
    (split; [by constructor | by f_equal]).
Qed.

Lemma unorm_not_nil d : Decimal.unorm d ≠ Decimal.Nil.
Proof. unfold Decimal.unorm. by destruct (Decimal.nzhead d). Qed.

(** [str(int(s))] of a row reference is a row reference. *)
Lemma row_str_of_int s : row s → row (str_of_int (int s)).
Proof.
  intros [[Hlo Hhi] Hs]. unfold str_of_int.
  rewrite (int_numeral _ Hs), DecimalN.Unsigned.to_of.
  destruct (string_of_uint_digits (Decimal.unorm (numeral s))) as [Hd Hl].
  split; [|exact Hd]. rewrite Hl. split.
  - pose proof (unorm_not_nil (numeral s)) as Hn.
    destruct (Decimal.nb_digits (Decimal.unorm (numeral s))) eqn:E; [|lia].
    by apply nb_digits_0 in E.
  - etrans; [apply nb_digits_unorm|by rewrite nb_digits_numeral].
    intros E. apply (f_equal Decimal.nb_digits) in E. rewrite nb_digits_numeral in E.
    simpl in E. lia.
Qed.

Lemma row_min a b : row a → row b → row (str_of_int (N.min (int a) (int b))).
Proof.
  intros Ha Hb. destruct (N.min_dec (int a) (int b)) as [-> | ->];
    by apply row_str_of_int.
Qed.

Lemma truthy_col c : col c → truthy c = true.
Proof. intros [_ Hc]%col_all. by apply truthy_true. Qed.

Lemma truthy_row r : row r → truthy r = true.
Proof. intros [_ Hr]%row_all. by apply truthy_true. Qed.

(** A range of one row: [sc line : ec line], where each column may be left
    out. *)
Lemma single_row_shape sc line ec :
  sc = [] ∨ col sc → ec = [] ∨ col ec → row line →
  first_shape (sc ++ line ++ ":" ++ ec ++ line) [sc; line; ec; line].
Proof.
  intros Hsc Hec Hl. apply first_shape_grammar. eexists. split; [by left|].
  destruct Hsc as [->|Hsc], Hec as [->|Hec]; cbn [app].
  - by apply (a1_rows line line).
  - by apply (a1_row_cell line ec line).
  - by apply (a1_cell_row sc line line).
  - by apply (a1_box sc line ec line).
Qed.

Lemma first_line_of_shape c r r' gs :
  Cfg.range c = Some r → range_match r = Some gs → a1_shape r' gs →
  ∀ first_line, get_first_line_range c = Ok first_line →
  ∃ sc line ec,
    first_line = sc ++ line ++ ":" ++ ec ++ line
    ∧ (sc = [] ∨ col sc) ∧ (ec = [] ∨ col ec) ∧ row line.
Proof.
  intros Hc Hm Hs first_line. unfold get_first_line_range. rewrite Hc, Hm.
  clear Hm Hc.
  assert (row "1") as Hone.
  { split; [simpl; lia | by repeat constructor]. }
  inversion Hs as [x y Hx Hy|x x' Hx Hx'|y y' Hy Hy'|x y y' Hx Hy Hy'|x y x' Hx Hy Hx'
                   |x y x' y' Hx Hy Hx' Hy'|x x' y' Hx Hx' Hy'|y x' y' Hy Hx' Hy'];
    subst; cbv zeta; unfold line_number;
    rewrite ?(truthy_col _ Hx), ?(truthy_col _ Hx'), ?(truthy_row _ Hy),
      ?(truthy_row _ Hy'); cbn [truthy andb negb]; intros [= <-].
  - exists x, y, x. by split_and!; [|right|right|].
  - exists x, "1", x'. by split_and!; [|right|right|].
  - exists [], (str_of_int (N.min (int y) (int y'))), [].
    split_and!; [done|by left|by left|by apply row_min].
  - exists x, (str_of_int (N.min (int y) (int y'))), [].
    split_and!; [done|by right|by left|by apply row_min].
  - exists x, y, x'. by split_and!; [|right|right|].
  - exists x, (str_of_int (N.min (int y) (int y'))), x'.
    split_and!; [done|by right|by right|by apply row_min].
  - exists x, y', x'. by split_and!; [|right|right|].
  - exists [], (str_of_int (N.min (int y) (int y'))), x'.
    split_and!; [done|by left|by right|by apply row_min].
Qed.

(** The range [get_first_line_range] answers is itself a range in A1
    notation, of one row: a column reference or none, a row number, a colon,
    a column reference or none, and the same row number.  It matches one of
    the eight patterns, so that the function accepts its own answers. *)
Theorem get_first_line_range_single_row (c : Cfg.t) (first_line : str) :
  get_first_line_range c = Ok first_line →
  ∃ sc line ec,
    first_line = sc ++ line ++ ":" ++ ec ++ line
    ∧ (sc = [] ∨ col sc) ∧ (ec = [] ∨ col ec) ∧ row line
    ∧ first_shape first_line [sc; line; ec; line]
    ∧ ∃ again, get_first_line_range (range_cfg (Some first_line)) = Ok again.
Proof.
  intros Hfl.
  assert (∃ sc line ec,
            first_line = sc ++ line ++ ":" ++ ec ++ line
            ∧ (sc = [] ∨ col sc) ∧ (ec = [] ∨ col ec) ∧ row line)
    as (sc & line & ec & -> & Hsc & Hec & Hl).
  { destruct (Cfg.range c) as [r|] eqn:Hc.
    - destruct (range_match r) as [gs|] eqn:Hm.
      + destruct (proj1 (first_shape_grammar r gs) (proj1 (range_match_Some r gs) Hm))
          as (r' & _ & Hs).
        by apply (first_line_of_shape c r r' gs Hc Hm Hs).
      + unfold get_first_line_range in Hfl. by rewrite Hc, Hm in Hfl.
    - unfold get_first_line_range in Hfl. rewrite Hc in Hfl. injection Hfl as <-.
      exists [], "1", []. split_and!; [done|by left|by left|].
      split; [simpl; lia | by repeat constructor]. }
  pose proof (single_row_shape sc line ec Hsc Hec Hl) as Hshape.
  exists sc, line, ec. split_and!; try done.
  apply range_match_Some in Hshape. unfold get_first_line_range, range_cfg.
  cbn [Cfg.range]. rewrite Hshape. eauto.
Qed.

Lemma get_first_line_range_single_row_witness :
  get_first_line_range (range_cfg (Some "C12:7")) = Ok "C7:7"
  ∧ ∃ sc line ec,
      "C7:7" = sc ++ line ++ ":" ++ ec ++ line
      ∧ row line
      ∧ first_shape "C7:7" [sc; line; ec; line].
Proof.
  assert (get_first_line_range (range_cfg (Some "C12:7")) = Ok "C7:7") as E by reflexivity.
  split; [exact E|].
  destruct (get_first_line_range_single_row _ _ E) as (sc & line & ec & H1 & _ & _ & H2 & H3 & _).
  exists sc, line, ec. split_and!; [exact H1 | exact H2 | exact H3].
Defined.

(** *** [discover_streams] and [path] *)

Section discover_more.
Variable request : str → result Json.

Lemma sheet_id_of_Ok c id :
  sheet_id_of c = Ok id ↔ ∃ raw, Cfg.sheet_id c = Some raw ∧ get_parsed_sheet_id raw = Ok id.
Proof.
  unfold sheet_id_of. destruct (Cfg.sheet_id c) as [raw|]; split.
  - eauto.
  - by intros (? & [= <-] & ?).
  - done.
  - by intros (? & ? & ?).
Qed.

Lemma get_sheet_data_Ok c data :
  get_sheet_data request c = Ok data ↔
  ∃ id first_line,
    sheet_id_of c = Ok id ∧ get_first_line_range c = Ok first_line
    ∧ request (values_path id (default [] (Cfg.child_sheet_name c)) first_line) = Ok data.
Proof.
  unfold get_sheet_data. split.
  - destruct (sheet_id_of c) as [id|]; [|done]. cbn [mbind result_bind].
    destruct (get_first_line_range c) as [fl|]; [|done]. cbn [mbind result_bind]. eauto.
  - intros (id & fl & -> & -> & Hr). done.
Qed.

Lemma discover_stream_turn acc c out :
  discover_stream request acc c = Ok out ↔ ∃ new, turn request c new ∧ out = acc ++ new.
Proof.
  unfold discover_stream, turn. split.
  - destruct (name_or_title request c) as [[n|]|e] eqn:Hn; [|done..].
    cbn [mbind result_bind].
    destruct (get_sheet_data request c) as [data|e] eqn:Hd; [|done].
    cbn [mbind result_bind].
    destruct (get_schema data) as [sch|e] eqn:Hs; [|done]. cbn [mbind result_bind].
    destruct (or_else _ _ _) as [child|e] eqn:Hc; [|done]. cbn [mbind result_bind].
    apply get_sheet_data_Ok in Hd as (id & fl & Hid & Hfl & Hreq).
    apply sheet_id_of_Ok in Hid as (raw & Hraw & Hid).
    intros Hout. eexists. split.
    + exists raw, id, fl, data, sch, child, n. split_and!; try done.
    + destruct (truthy _); injection Hout as <-; [done | by rewrite app_nil_r].
  - intros (new & (raw & id & fl & data & sch & child & n
                   & Hraw & Hid & Hfl & Hreq & Hs & Hn & Hc & ->) & ->).
    rewrite Hn. cbn [mbind result_bind].
    assert (get_sheet_data request c = Ok data) as ->.
    { apply get_sheet_data_Ok. exists id, fl. split_and!; try done.
      apply sheet_id_of_Ok. eauto. }
    cbn [mbind result_bind]. rewrite Hs. cbn [mbind result_bind]. rewrite Hc.
    cbn [mbind result_bind]. destruct (truthy _); [done | by rewrite app_nil_r].
Qed.

Lemma for_loop_turns l acc out :
  for_loop (discover_stream request) l acc = Ok out ↔
  ∃ news, Forall2 (turn request) l news ∧ out = acc ++ concat news.
Proof.
  revert acc out. induction l as [|c l IH]; intros acc out; cbn [for_loop].
  - split.
    + intros [= <-]. exists []. split; [constructor | by rewrite app_nil_r].
    + intros (news & Hn & ->). inversion Hn. by rewrite app_nil_r.
  - split.
    + destruct (discover_stream request acc c) as [acc'|e] eqn:Hc; [|done].
      cbn [mbind result_bind]. intros (news & Hn & ->)%IH.
      apply discover_stream_turn in Hc as (new & Hnew & ->).
      exists (new :: news). split; [by constructor|]. cbn [concat]. by rewrite app_assoc.
    + intros (news & Hn & ->). inversion Hn as [|? new ? news' Hnew Hn']; subst.
      assert (discover_stream request acc c = Ok (acc ++ new)) as ->.
      { apply discover_stream_turn. eauto. }
      cbn [mbind result_bind]. apply IH. exists news'. split; [done|].
      cbn [concat]. by rewrite app_assoc.
Qed.

Lemma name_or_title_Some c n :
  name_or_title request c = Ok (Some n) →
  given (Cfg.output_name c)
  ∨ ∃ id meta, sheet_id_of c = Ok id ∧ request (drive_path id) = Ok meta
               ∧ json_title meta = Some n.
Proof.
  unfold name_or_title. destruct (given_dec (Cfg.output_name c)) as [Hg|Hng]; [by left|].
  rewrite (or_else_not_given _ _ _ Hng). unfold get_sheet_name.
  destruct (sheet_id_of c) as [id|]; [|done]. cbn [mbind result_bind].
  destruct (request (drive_path id)) as [meta|] eqn:Hm; [|done]. cbn [mbind result_bind].
  intros [= Ht]. right. eauto.
Qed.

Lemma turn_resolved c new : turn request c new → resolved request c.
Proof.
  intros (raw & id & fl & data & sch & child & n
          & Hraw & Hid & Hfl & Hreq & Hs & Hn & Hc & _).
  destruct (get_schema_Ok_inv _ _ Hs) as (headings & rows & Hv).
  assert (sheet_id_of c = Ok id) as Hsid by (apply sheet_id_of_Ok; eauto).
  exists id, fl, data, headings, rows. split_and!; try done.
  - destruct (name_or_title_Some _ _ Hn) as [?|(id' & meta & Hid' & Hm & Ht)]; [by left|].
    right. rewrite Hsid in Hid'. injection Hid' as <-. eauto.
  - destruct (given_dec (Cfg.child_sheet_name c)) as [Hg|Hng]; [by left|]. right.
    rewrite (or_else_not_given _ _ _ Hng) in Hc.
    unfold get_first_visible_child_sheet_name in Hc.
    by destruct (json_range data).
Qed.
End discover_more.

Lemma discover_streams_turns request config streams :
  discover_streams request config = Ok streams ↔
  ∃ news, Forall2 (turn request) (sheet_entries config) news ∧ streams = concat news.
Proof. unfold discover_streams. apply for_loop_turns. Qed.

(** [discover_streams] returns a list of streams exactly when every sheet
    entry resolves: discovery is all or nothing. *)
Theorem discover_streams_succeeds_iff (request : str → result Json) (config : TapConfig) :
  (∃ streams, discover_streams request config = Ok streams)
  ↔ Forall (resolved request) (sheet_entries config).
Proof.
  split.
  - intros (streams & (news & Hn & _)%discover_streams_turns).
    induction Hn as [|c new l news Hc _ IH]; constructor; [|done].
    by eapply turn_resolved.
  - intros Hall. destruct (discover_resolved request _ Hall) as (streams & Hs & _).
    by exists streams.
Qed.

(** The first entry that fails ends discovery with its own exception: the
    streams of the entries before it are not returned, and the entries after
    it are not looked at. *)
Theorem discover_streams_first_failure (request : str → result Json) (config : TapConfig)
    (before after : list Cfg.t) (c : Cfg.t) (e : exn) :
  sheet_entries config = before ++ c :: after →
  Forall (resolved request) before →
  discover_stream request [] c = Raise e →
  discover_streams request config = Raise e
  ∧ ∀ config',
      sheet_entries config' = before ++ [c] →
      discover_streams request config' = Raise e.
Proof.
  intros E Hall Hc.
  assert (∀ l, for_loop (discover_stream request) (before ++ c :: l) [] = Raise e) as H.
  { intros l. rewrite for_loop_app.
    destruct (discover_resolved request _ Hall) as (streams & -> & _).
    cbn [mbind result_bind for_loop]. rewrite discover_stream_acc, Hc. done. }
  unfold discover_streams. split.
  - rewrite E. apply H.
  - intros config' ->. apply H.
Qed.

Lemma discover_streams_first_failure_witness :
  sheet_entries (demo_config ["idA"; "idZ"; "idB"])
  = [demo_entry "idA"] ++ demo_entry "idZ" :: [demo_entry "idB"]
  ∧ discover_stream demo_request [] (demo_entry "idZ") = Raise (RequestError "404")
  ∧ discover_streams demo_request (demo_config ["idA"; "idZ"; "idB"])
    = Raise (RequestError "404").
Proof.
  split; [reflexivity|]. split; [reflexivity|].
  refine (proj1 (discover_streams_first_failure demo_request
                   (demo_config ["idA"; "idZ"; "idB"])
                   [demo_entry "idA"] [demo_entry "idB"] (demo_entry "idZ")
                   (RequestError "404") eq_refl _ eq_refl)).
  repeat constructor.
  exists "idA", "1:1", {| json_title := None; json_values := Some [["Name"; "Age"]];
                          json_range := Some "Sheet1!A1:Z1" |}, ["Name"; "Age"], [].
  split_and!; [reflexivity.. | | ].
  - right. eexists _, _. split; reflexivity.
  - right. eexists. reflexivity.
Defined.

Lemma replace_no_space s : " "%char ∉ replace " " "_" s.
Proof.
  unfold replace. induction s as [|c s IH]; cbn [map]; [apply not_elem_of_nil|].
  apply not_elem_of_cons. split; [|done]. by case_decide.
Qed.

Lemma elem_of_concat_turns request l news st :
  Forall2 (turn request) l news → st ∈ concat news →
  ∃ c, c ∈ l ∧ turn request c [st].
Proof.
  induction 1 as [|c new l news Hc _ IH]; cbn [concat].
  - by intros ?%elem_of_nil.
  - intros [Hin|Hin]%elem_of_app.
    + exists c. split; [left|].
      destruct Hc as (raw & id & fl & data & sch & child & n & H).
      destruct H as (? & ? & ? & ? & ? & ? & ? & ->).
      destruct (truthy _) eqn:Ht; [|by apply elem_of_nil in Hin].
      apply list_elem_of_singleton in Hin as ->.
      exists raw, id, fl, data, sch, child, n. rewrite Ht. by split_and!.
    + destruct (IH Hin) as (c' & ? & ?). exists c'. split; [by right | done].
Qed.

(** Every stream [discover_streams] returns is built from one sheet entry
    of the configuration and from the header the remote served for it: its
    name is not empty and holds no space, its schema is the schema of that
    header (no name twice, no whitespace in a name), its keys are the
    entry's [key_properties] (none when the entry has none), and its child
    sheet is the one the entry names, or else the tab of the range the
    remote answered with. *)
Theorem discover_streams_contents (request : str → result Json) (config : TapConfig)
    (streams : list GoogleSheetsStream) :
  discover_streams request config = Ok streams →
  Forall (λ st,
            let c := stream_config st in
            c ∈ sheet_entries config
            ∧ name st ≠ [] ∧ (" "%char ∉ name st)
            ∧ primary_keys st = default [] (Cfg.key_properties c)
            ∧ NoDup (Dict.keys (schema st))
            ∧ Forall no_space (Dict.keys (schema st))
            ∧ ∃ id first_line data,
                sheet_id_of c = Ok id
                ∧ get_first_line_range c = Ok first_line
                ∧ request (values_path id (default [] (Cfg.child_sheet_name c)) first_line)
                  = Ok data
                ∧ get_schema data = Ok (schema st)
                ∧ (given (Cfg.child_sheet_name c) →
                   Cfg.child_sheet_name c = Some (child_sheet_name st))
                ∧ (¬ given (Cfg.child_sheet_name c) →
                   get_first_visible_child_sheet_name data = Ok (child_sheet_name st)))
         streams.
Proof.
  intros (news & Hn & ->)%discover_streams_turns. apply Forall_forall. intros st Hin.
  destruct (elem_of_concat_turns _ _ _ _ Hn Hin)
    as (c & Hc & raw & id & fl & data & sch & child & n
        & Hraw & Hid & Hfl & Hreq & Hs & Hname & Hchild & Hst).
  destruct (truthy (replace " " "_" n)) eqn:Ht; [|done]. injection Hst as ->.
  cbn [stream_config name primary_keys schema child_sheet_name].
  destruct (get_schema_names _ _ Hs) as [Hnd Hsp].
  split_and!; try done.
  - by apply truthy_true.
  - apply replace_no_space.
  - exists id, fl, data. split_and!; try done.
    + apply sheet_id_of_Ok. eauto.
    + intros Hg. destruct (or_else_given _ Ok (get_first_visible_child_sheet_name data) Hg)
        as (s & Hsome & _ & E). rewrite E in Hchild. by injection Hchild as <-.
    + intros Hng. destruct (given_dec (Cfg.child_sheet_name c)) as [?|Hno]; [done|].
      by rewrite (or_else_not_given _ _ _ Hno) in Hchild.
Qed.

Lemma discover_streams_contents_witness :
  discover_streams demo_request (demo_config ["idA"; "idB"])
  = Ok [{| name := "Team_list"; schema := [("Name", StringType); ("Age", StringType)];
           child_sheet_name := "Sheet1"; primary_keys := [];
           stream_config := demo_entry "idA" |}]
  ∧ Forall (λ st, name st ≠ [] ∧ (" "%char ∉ name st)
                  ∧ primary_keys st = default [] (Cfg.key_properties (stream_config st))
                  ∧ NoDup (Dict.keys (schema st)))
      [{| name := "Team_list"; schema := [("Name", StringType); ("Age", StringType)];
          child_sheet_name := "Sheet1"; primary_keys := [];
          stream_config := demo_entry "idA" |}].
Proof.
  assert (discover_streams demo_request (demo_config ["idA"; "idB"])
          = Ok [{| name := "Team_list";
                   schema := [("Name", StringType); ("Age", StringType)];
                   child_sheet_name := "Sheet1"; primary_keys := [];
                   stream_config := demo_entry "idA" |}]) as E by reflexivity.
  split; [exact E|].
  eapply Forall_impl; [exact (discover_streams_contents _ _ _ E)|].
  intros st (_ & H1 & H2 & H3 & H4 & _). by split_and!.
Defined.

(** The [path] of every stream [discover_streams] returns is defined: it
    is [/<sheet_id>/values/<child sheet>], with the sheet identifier as the
    entry gives it (the whole URL when the entry gives a URL, not the
    identifier extracted from it), followed by [!<range>] when the entry has
    a range, which then has one of the eight shapes. *)
Theorem discover_streams_paths (request : str → result Json) (config : TapConfig)
    (streams : list GoogleSheetsStream) :
  discover_streams request config = Ok streams →
  Forall (λ st,
            ∃ raw id,
              Cfg.sheet_id (stream_config st) = Some raw
              ∧ get_parsed_sheet_id raw = Ok id
              ∧ match Cfg.range (stream_config st) with
                | None =>
                    path st = Ok ("/" ++ raw ++ "/values/" ++ child_sheet_name st)
                | Some r =>
                    path st = Ok ("/" ++ raw ++ "/values/" ++ child_sheet_name st
                                  ++ "!" ++ r)
                    ∧ ∃ gs, first_shape r gs
                end)
         streams.
Proof.
  intros (news & Hn & ->)%discover_streams_turns. apply Forall_forall. intros st Hin.
  destruct (elem_of_concat_turns _ _ _ _ Hn Hin)
    as (c & Hc & raw & id & fl & data & sch & child & n
        & Hraw & Hid & Hfl & Hreq & Hs & Hname & Hchild & Hst).
  destruct (truthy (replace " " "_" n)) eqn:Ht; [|done]. injection Hst as ->.
  exists raw, id. unfold path. cbn [stream_config child_sheet_name].
  rewrite Hraw. split_and!; try done.
  unfold get_first_line_range in Hfl.
  destruct (Cfg.range c) as [r|]; [|done].
  destruct (range_match r) as [gs|] eqn:Hm; [|done].
  destruct r as [|x r]; [done|]. split.
  - cbn [or_else truthy]. by rewrite <- !app_assoc.
  - exists gs. by apply range_match_Some.
Qed.

Lemma discover_streams_paths_witness :
  discover_streams demo_request (demo_config ["idA"])
  = Ok [{| name := "Team_list"; schema := [("Name", StringType); ("Age", StringType)];
           child_sheet_name := "Sheet1"; primary_keys := [];
           stream_config := demo_entry "idA" |}]
  ∧ Forall (λ st, ∃ raw id,
                    Cfg.sheet_id (stream_config st) = Some raw
                    ∧ get_parsed_sheet_id raw = Ok id
                    ∧ path st = Ok ("/" ++ raw ++ "/values/" ++ child_sheet_name st))
      [{| name := "Team_list"; schema := [("Name", StringType); ("Age", StringType)];
          child_sheet_name := "Sheet1"; primary_keys := [];
          stream_config := demo_entry "idA" |}].
Proof.
  assert (discover_streams demo_request (demo_config ["idA"])
          = Ok [{| name := "Team_list";
                   schema := [("Name", StringType); ("Age", StringType)];
                   child_sheet_name := "Sheet1"; primary_keys := [];
                   stream_config := demo_entry "idA" |}]) as E by reflexivity.
  split; [exact E|].
  destruct (Forall_inv (discover_streams_paths _ _ _ E)) as (raw & id & H1 & H2 & H3).
  constructor; [|constructor]. exists raw, id. split_and!; [exact H1 | exact H2 | exact H3].
Defined.

Lemma name_or_title_given request c :
  given (Cfg.output_name c) → ∃ n, name_or_title request c = Ok (Some n).
Proof.
  intros Hg. unfold name_or_title.
  destruct (or_else_given _ (λ n, Ok (Some n)) (get_sheet_name request c) Hg)
    as (s & _ & _ & ->). eauto.
Qed.

Lemma name_or_title_not_given request c :
  ¬ given (Cfg.output_name c) → name_or_title request c = get_sheet_name request c.
Proof.
  intros Hng. unfold name_or_title.
  destruct (given_dec (Cfg.output_name c)) as [?|Hno]; [done|].
  apply (or_else_not_given _ _ _ Hno).
Qed.

(** The order in which one entry can fail.  An identifier that does not
    resolve is reported first, whatever the remote answers.  A range that is
    not valid is reported before the header is asked for; but when the entry
    sets no output name the title has been asked for by then, so that a
    failing title request, or a title that is missing, is reported instead. *)
Theorem discover_stream_error_order (request : str → result Json)
    (streams : list GoogleSheetsStream) (c : Cfg.t) :
  (∀ e, sheet_id_of c = Raise e → discover_stream request streams c = Raise e)
  ∧ (∀ id e,
       sheet_id_of c = Ok id →
       get_first_line_range c = Raise e →
       (given (Cfg.output_name c) → discover_stream request streams c = Raise e)
       ∧ (¬ given (Cfg.output_name c) →
          discover_stream request streams c
          = match request (drive_path id) with
            | Raise e' => Raise e'
            | Ok meta =>
                match json_title meta with
                | Some _ => Raise e
                | None => Raise no_replace
                end
            end)).
Proof.
  split.
  - intros e Hid. unfold discover_stream.
    destruct (given_dec (Cfg.output_name c)) as [Hg|Hng].
    + destruct (name_or_title_given request c Hg) as [n ->]. cbn [mbind result_bind].
      unfold get_sheet_data. by rewrite Hid.
    + unfold name_or_title. rewrite (or_else_not_given _ _ _ Hng).
      unfold get_sheet_name. by rewrite Hid.
  - intros id e Hid Hfl.
    assert (get_sheet_data request c = Raise e) as Hdata.
    { unfold get_sheet_data. by rewrite Hid, Hfl. }
    split.
    + intros Hg. unfold discover_stream.
      destruct (name_or_title_given request c Hg) as [n ->]. cbn [mbind result_bind].
      by rewrite Hdata.
    + intros Hng. unfold discover_stream.
      rewrite (name_or_title_not_given _ _ Hng). unfold get_sheet_name.
      rewrite Hid. cbn [mbind result_bind].
      destruct (request (drive_path id)) as [meta|e']; [|done]. cbn [mbind result_bind].
      destruct (json_title meta); cbn [mbind result_bind]; [by rewrite Hdata | done].
Qed.

Lemma discover_stream_error_order_witness :
  sheet_id_of (Cfg.Make (Some "/d/idA") None None None (Some "x:y:z")) = Ok "idA"
  ∧ get_first_line_range (Cfg.Make (Some "/d/idA") None None None (Some "x:y:z"))
    = Raise (ConfigValidationError "Invalid A1 notation for range")
  ∧ discover_stream demo_request [] (Cfg.Make (Some "/d/idA") None None None (Some "x:y:z"))
    = Raise (ConfigValidationError "Invalid A1 notation for range")
  ∧ discover_stream demo_request [] (Cfg.Make (Some "/d/idC") None None None (Some "x:y:z"))
    = Raise no_replace
  ∧ discover_stream demo_request []
      (Cfg.Make (Some "/d/idC") (Some "out") None None (Some "x:y:z"))
    = Raise (ConfigValidationError "Invalid A1 notation for range").
Proof.
  split; [reflexivity|]. split; [reflexivity|]. split_and!.
  - refine (proj2 (proj2 (discover_stream_error_order demo_request []
                            (Cfg.Make (Some "/d/idA") None None None (Some "x:y:z")))
                     "idA" _ eq_refl eq_refl) _).
    intros (s & Hs & _). discriminate Hs.
  - refine (proj2 (proj2 (discover_stream_error_order demo_request []
                            (Cfg.Make (Some "/d/idC") None None None (Some "x:y:z")))
                     "idC" _ eq_refl eq_refl) _).
    intros (s & Hs & _). discriminate Hs.
  - refine (proj1 (proj2 (discover_stream_error_order demo_request []
                            (Cfg.Make (Some "/d/idC") (Some "out") None None (Some "x:y:z")))
                     "idC" _ eq_refl eq_refl) _).
    exists "out". split; [reflexivity | discriminate].
Defined.

(** Without a ["sheets"] list, or with an empty one, the top level of the
    configuration is the one sheet entry; with a list that is not empty the
    sheet keys of the top level are not read at all.  So a configuration
    without a list and without a top-level [sheet_id] fails with the
    [KeyError] of that key, whatever the remote answers. *)
Theorem discover_streams_top_level (request : str → result Json) (config : TapConfig) :
  (sheets config = None ∨ sheets config = Some [] →
   discover_streams request config = discover_stream request [] (top_level config)
   ∧ (Cfg.sheet_id (top_level config) = None →
      discover_streams request config = Raise (KeyError "sheet_id")))
  ∧ (∀ c l other,
       sheets config = Some (c :: l) →
       discover_streams request config
       = discover_streams request {| sheets := Some (c :: l); top_level := other |}).
Proof.
  split.
  - intros Hs.
    assert (discover_streams request config
            = discover_stream request [] (top_level config)) as E.
    { unfold discover_streams, sheet_entries.
      destruct Hs as [-> | ->]; cbn [for_loop];
        by destruct (discover_stream request [] (top_level config)). }
    split; [exact E|]. intros Hid. rewrite E. unfold discover_stream.
    destruct (given_dec (Cfg.output_name (top_level config))) as [Hg|Hng].
    + destruct (name_or_title_given request _ Hg) as [n ->]. cbn [mbind result_bind].
      unfold get_sheet_data, sheet_id_of. by rewrite Hid.
    + unfold name_or_title. rewrite (or_else_not_given _ _ _ Hng).
      unfold get_sheet_name, sheet_id_of. by rewrite Hid.
  - intros c l other Hs. unfold discover_streams, sheet_entries. by rewrite Hs.
Qed.

Lemma discover_streams_top_level_witness :
  discover_streams demo_request
    {| sheets := Some []; top_level := Cfg.Make None (Some "out") None None None |}
  = Raise (KeyError "sheet_id")
  ∧ discover_streams demo_request
      {| sheets := Some [demo_entry "idA"];
         top_level := Cfg.Make None (Some "out") None None None |}
    = discover_streams demo_request
        {| sheets := Some [demo_entry "idA"]; top_level := demo_entry "idB" |}.
Proof.
  split.
  - exact (proj2 (proj1 (discover_streams_top_level demo_request
                    {| sheets := Some [];
                       top_level := Cfg.Make None (Some "out") None None None |})
                    (or_intror eq_refl)) eq_refl).
  - exact (proj2 (discover_streams_top_level demo_request
                    {| sheets := Some [demo_entry "idA"];
                       top_level := Cfg.Make None (Some "out") None None None |})
             (demo_entry "idA") [] (demo_entry "idB") eq_refl).
Defined.

(** ** Concrete checks *)

Example a1_G8 : range_match "G8" = Some ["G"; "8"; ""; ""].
Proof. reflexivity. Qed.
Example a1_C_G : range_match "C:G" = Some ["C"; ""; "G"; ""].
Proof. reflexivity. Qed.
Example a1_1_5 : range_match "1:5" = Some [""; "1"; ""; "5"].
Proof. reflexivity. Qed.
Example a1_C1_5 : range_match "C1:5" = Some ["C"; "1"; ""; "5"].
Proof. reflexivity. Qed.
Example a1_A1_B : range_match "A1:B" = Some ["A"; "1"; "B"; ""].
Proof. reflexivity. Qed.
Example a1_C4_G14 : range_match "C4:G14" = Some ["C"; "4"; "G"; "14"].
Proof. reflexivity. Qed.
Example a1_A_B5 : range_match "A:B5" = Some ["A"; ""; "B"; "5"].
Proof. reflexivity. Qed.
Example a1_2_B5 : range_match "2:B5" = Some [""; "2"; "B"; "5"].
Proof. reflexivity. Qed.
Example a1_newline :
  range_match ("A5" ++ ["010"%char]) = Some ["A"; "5"; ""; ""]
  ∧ get_first_line_range (range_cfg (Some ("A5" ++ ["010"%char]))) = Ok "A5:A5".
Proof. split; reflexivity. Qed.
Example a1_too_wide : range_match "ABCD1" = None.
Proof. reflexivity. Qed.
Example a1_open_end : range_match "A1:" = None.
Proof. reflexivity. Qed.
Example a1_leading_zero :
  get_first_line_range (range_cfg (Some "C04:G")) = Ok "C04:G04"
  ∧ get_first_line_range (range_cfg (Some "C04:G14")) = Ok "C4:G4".
Proof. split; reflexivity. Qed.
Example a1_column_span : get_first_line_range (range_cfg (Some "C:G")) = Ok "C1:G1".
Proof. reflexivity. Qed.
Example normalize_examples :
  normalize "First Name" = "First_Name" ∧ normalize "  Last  Name" = "Last_Name"
  ∧ normalize " " = "" ∧ normalize "a_b" = "a_b".
Proof. repeat split; reflexivity. Qed.
Example resolve_url :
  get_parsed_sheet_id "https://docs.google.com/spreadsheets/d/1a-B_c/edit#gid=0"
  = Ok "1a-B_c".
Proof. reflexivity. Qed.
Example resolve_fails :
  get_parsed_sheet_id "not a valid anything"
  = Raise (RuntimeError "Spreadsheet ID not found in the input: not a valid anything.").
Proof. reflexivity. Qed.
Example discover_demo :
  match discover_streams demo_request (demo_config ["idA"; "idB"; "idA"]) with
  | Ok streams => Some ((λ st, (name st, Dict.keys (schema st), child_sheet_name st)) <$> streams)
  | Raise _ => None
  end
  = Some [("Team_list", ["Name"; "Age"], "Sheet1"); ("Team_list", ["Name"; "Age"], "Sheet1")].
Proof. reflexivity. Qed.
